(** * Audio utilities of the text-to-speech front end

    A shallow embedding of [utils/audioUtils.ts]: raw PCM decoding
    ([decodeAudioData]), the hand-written WAV encoder ([audioBufferToWav],
    [interleave], [encodeWAV], [writeString], [floatTo16BitPCM]), the
    format probe ([getSupportedFormats]) and the recorder-driven transcoder
    ([transcodeToBlob]), followed by the properties of these functions.

    Modelling conventions.
    - A JavaScript [number] that holds a sample is a [number] below: an exact
      rational, or one of the three non-finite values.  Every arithmetic step
      the module performs on samples is exact in IEEE arithmetic (a division
      of a 16-bit integer by 2^15, and a product of a binary32 value with
      32767 or 32768 evaluated in binary64), so exact rationals describe the
      computed values.
    - [ArrayBuffer] and [DataView] are [list byte]; a [Uint8Array] is a
      window on an [ArrayBuffer]; [Float32Array] is [list number] and
      [Int16Array] is [list Z].
    - A thrown exception, or a rejected promise, is [Err]. *)

From Stdlib Require Import ZArith QArith Qround Qabs Qminmax String List Lia.
From coqutil Require Import Byte Word.LittleEndianList.
From Equations Require Import Equations.
From stdpp Require Import base list.

(** ** Errors and results *)

(** The failures the module can surface, named after the place that raises
    them. *)
Inductive error : Type :=
  | MalformedInputError     (* a check on the shape of the input bytes *)
  | AllocationError         (* [ctx.createBuffer] throws *)
  | IndexSizeError          (* [getChannelData] on a missing channel *)
  | RangeError              (* a view or a write outside its buffer, or a
                               misaligned typed array *)
  | ReferenceError          (* the [MediaRecorder] global is undefined *)
  | UnsupportedFormatError  (* [new MediaRecorder] rejects the MIME type *)
  | TranscodeError.         (* the recorder's [error] event *)

Inductive result (A : Type) : Type :=
  | Ok (a : A)
  | Err (e : error).
Arguments Ok {A} a.
Arguments Err {A} e.

Definition bind {A B} (r : result A) (k : A -> result B) : result B :=
  match r with
  | Ok a => k a
  | Err e => Err e
  end.

Notation "'let*' x ':=' r 'in' k" := (bind r (fun x => k))
  (at level 10, x name, r at level 100, k at level 200).

(** ** JavaScript numbers *)

Inductive number : Type :=
  | NaN
  | PosInf
  | NegInf
  | Fin (q : Q).

Definition Qltb (x y : Q) : bool := negb (Qle_bool y x).

(** [a < b] *)
Definition num_ltb (a b : number) : bool :=
  match a, b with
  | NaN, _ | _, NaN => false
  | PosInf, _ => false
  | _, NegInf => false
  | NegInf, _ => true
  | _, PosInf => true
  | Fin x, Fin y => Qltb x y
  end.

Definition Math_min (a b : number) : number :=
  match a, b with
  | NaN, _ | _, NaN => NaN
  | _, _ => if num_ltb b a then b else a
  end.

Definition Math_max (a b : number) : number :=
  match a, b with
  | NaN, _ | _, NaN => NaN
  | _, _ => if num_ltb a b then b else a
  end.

Definition Qsign (q : Q) : Z := Z.sgn (Qnum q).

(** [a * b] *)
Definition num_mul (a b : number) : number :=
  let inf_times (positive : bool) (s : Z) : number :=
    match s with
    | Z0 => NaN
    | Zpos _ => if positive then PosInf else NegInf
    | Zneg _ => if positive then NegInf else PosInf
    end in
  match a, b with
  | NaN, _ | _, NaN => NaN
  | PosInf, PosInf | NegInf, NegInf => PosInf
  | PosInf, NegInf | NegInf, PosInf => NegInf
  | PosInf, Fin y => inf_times true (Qsign y)
  | NegInf, Fin y => inf_times false (Qsign y)
  | Fin x, PosInf => inf_times true (Qsign x)
  | Fin x, NegInf => inf_times false (Qsign x)
  | Fin x, Fin y => Fin (x * y)
  end.

(** Truncation toward zero. *)
Definition Qtruncate (q : Q) : Z := Z.quot (Qnum q) (Z.pos (Qden q)).

(** The two's complement reading of the low 16 bits. *)
Definition to_signed16 (z : Z) : Z :=
  let u := (z mod 65536)%Z in
  if (32768 <=? u)%Z then (u - 65536)%Z else u.

(** [ToInt16]: non-finite values become 0, finite ones are truncated and
    wrapped. *)
Definition ToInt16 (v : number) : Z :=
  match v with
  | Fin q => to_signed16 (Qtruncate q)
  | _ => 0%Z
  end.

(** ** Typed arrays and [DataView] *)

(** [a[i]] read from a [Float32Array] and stored into another one: an index
    outside the array reads [undefined], which a [Float32Array] stores as
    NaN. *)
Definition ta_get (a : list number) (i : nat) : number :=
  default NaN (a !! i).

(** [a[i] = v] on a typed array: a store outside the array is ignored. *)
Definition ta_set {A} (a : list A) (i : nat) (v : A) : list A := <[i := v]> a.

Definition DataView : Type := list byte.

(** A [DataView] write of [k] bytes at [offset] throws [RangeError] unless it
    lies inside the buffer. *)
Definition dv_write (view : DataView) (offset : nat) (bs : list byte)
  : result DataView :=
  if (offset + length bs <=? length view)%nat
  then Ok (list_inserts offset bs view)
  else Err RangeError.

Definition setUint8 (view : DataView) (offset : nat) (value : Z) :=
  dv_write view offset (le_split 1 value).

(** The [littleEndian] argument is [true] at every call of the module. *)
Definition setUint16 (view : DataView) (offset : nat) (value : Z) :=
  dv_write view offset (le_split 2 value).

Definition setUint32 (view : DataView) (offset : nat) (value : Z) :=
  dv_write view offset (le_split 4 value).

Definition setInt16 (view : DataView) (offset : nat) (value : number) :=
  dv_write view offset (le_split 2 (ToInt16 value)).

Definition getUint16 (view : DataView) (offset : nat) : Z :=
  le_combine (take 2 (drop offset view)).

Definition getUint32 (view : DataView) (offset : nat) : Z :=
  le_combine (take 4 (drop offset view)).

Definition getInt16 (view : DataView) (offset : nat) : Z :=
  to_signed16 (getUint16 view offset).

(** A [Uint8Array] is a window on an [ArrayBuffer]: the bytes of the buffer
    before the window, the elements of the array, and the bytes of the buffer
    after them. *)
Record Uint8Array : Type := mkUint8Array {
  ua_before : list byte;
  ua_bytes : list byte;
  ua_after : list byte
}.

(** [data.buffer] *)
Definition ua_buffer (data : Uint8Array) : list byte :=
  ua_before data ++ ua_bytes data ++ ua_after data.

Definition byteOffset (data : Uint8Array) : nat := length (ua_before data).

Definition byteLength (data : Uint8Array) : nat := length (ua_bytes data).

(** [new Uint8Array(len)] owns its buffer: the array starts at offset 0 and
    covers all of it. *)
Definition freshArray (bytes : list byte) : Uint8Array :=
  mkUint8Array [] bytes [].

(** The 16-bit elements a little-endian platform reads from a byte sequence,
    two bytes each; a trailing odd byte holds no element. *)
Fixpoint int16_elements (data : list byte) : list Z :=
  match data with
  | lo :: hi :: rest => to_signed16 (le_combine [lo; hi]) :: int16_elements rest
  | _ => []
  end.

(** ** Audio buffers and blobs *)

(** An [AudioBuffer]: its sample rate, a whole number of Hz, and the samples
    of each channel.  The platform builds buffers with at least one channel
    and channels of one common length. *)
Record AudioBuffer : Type := mkAudioBuffer {
  sampleRate : Z;
  channelData : list (list number)
}.

Definition numberOfChannels (b : AudioBuffer) : nat := length (channelData b).

Definition getChannelData (b : AudioBuffer) (channel : nat)
  : result (list number) :=
  match channelData b !! channel with
  | Some d => Ok d
  | None => Err IndexSizeError
  end.

(** The frame count of a buffer: the length of its first channel. *)
Definition bufferLength (b : AudioBuffer) : nat :=
  length (default [] (channelData b !! 0%nat)).

Record Blob : Type := mkBlob {
  blob_data : list byte;
  blob_type : string
}.

Definition printable (c : Ascii.ascii) : bool :=
  let n := Ascii.N_of_ascii c in (32 <=? n)%N && (n <=? 126)%N.

Definition lower_case_char (c : Ascii.ascii) : Ascii.ascii :=
  let n := Ascii.N_of_ascii c in
  if (65 <=? n)%N && (n <=? 90)%N then Ascii.ascii_of_N (n + 32) else c.

Fixpoint lower_case (s : string) : string :=
  match s with
  | EmptyString => EmptyString
  | String c rest => String (lower_case_char c) (lower_case rest)
  end.

(** The [type] of the blob [new Blob(parts, { type })] makes: the empty
    string if a character of [type] lies outside U+0020..U+007E, the ASCII
    lower-case form of [type] otherwise. *)
Definition blobType (type : string) : string :=
  if forallb printable (list_ascii_of_string type) then lower_case type
  else EmptyString.

(** [new Blob(parts, { type })], the parts already concatenated. *)
Definition newBlob (parts : list byte) (type : string) : Blob :=
  mkBlob parts (blobType type).

(** ** The host platform

    What the module asks of the browser and cannot compute itself. *)
Record Host : Type := mkHost {
  (** the IEEE binary32 bit pattern [DataView.setFloat32] stores *)
  float32_bits : number -> Z;
  (** whether [ctx.createBuffer(numChannels, length, sampleRate)] accepts its
      arguments; it throws otherwise *)
  bufferAllowed : nat -> nat -> Z -> bool;
  (** [None] when the [MediaRecorder] global is undefined, otherwise
      [MediaRecorder.isTypeSupported]; [new MediaRecorder(stream, {mimeType})]
      throws exactly for the MIME types it reports as unsupported *)
  mediaRecorder : option (string -> bool)
}.

(** ** The WAV encoder *)

Definition charCodeAt (c : Ascii.ascii) : Z := Z.of_N (Ascii.N_of_ascii c).

(** [for (let i = 0; i < string.length; i++) view.setUint8(offset + i, ...)] *)
Fixpoint writeString (view : DataView) (offset : nat) (string : string)
  : result DataView :=
  match string with
  | EmptyString => Ok view
  | String c rest =>
      let* view := setUint8 view offset (charCodeAt c) in
      writeString view (offset + 1) rest
  end.

(** [for (let i = 0; i < input.length; i++, offset += 2) { ... }] *)
Fixpoint floatTo16BitPCM (output : DataView) (offset : nat)
  (input : list number) : result DataView :=
  match input with
  | [] => Ok output
  | x :: rest =>
      let s := Math_max (Fin (-1)) (Math_min (Fin 1) x) in
      let* output :=
        setInt16 output offset
          (if num_ltb s (Fin 0) then num_mul s (Fin 32768)
           else num_mul s (Fin 32767)) in
      floatTo16BitPCM output (offset + 2) rest
  end.

(** [for (let i = 0; i < input.length; i++, offset += 4) { ... }] *)
Fixpoint writeFloat32 (host : Host) (output : DataView) (offset : nat)
  (input : list number) : result DataView :=
  match input with
  | [] => Ok output
  | x :: rest =>
      let* output := setUint32 output offset (float32_bits host x) in
      writeFloat32 host output (offset + 4) rest
  end.

(** [new ArrayBuffer(length)]: the length is truncated to an integer, and a
    negative one is a [RangeError]. *)
Definition ArrayBuffer (length : Q) : result (list byte) :=
  let length := Qtruncate length in
  if (length <? 0)%Z then Err RangeError
  else Ok (replicate (Z.to_nat length) Byte.x00).

(** The arguments are whole numbers; [bitDepth / 8] and the products made
    with it need not be (they are exact in binary64 while they stay below
    2^53), and a [DataView] setter truncates the number it is given before
    it wraps it. *)
Definition encodeWAV (host : Host) (samples : list number)
  (format sampleRate numChannels bitDepth : Z) : result Blob :=
  let bytesPerSample : Q := bitDepth # 8 in
  let blockAlign : Q := (inject_Z numChannels * bytesPerSample)%Q in
  let size : Q := (inject_Z (Z.of_nat (length samples)) * bytesPerSample)%Q in
  let* view := ArrayBuffer (inject_Z 44 + size)%Q in
  let* view := writeString view 0 "RIFF" in
  let* view := setUint32 view 4 (Qtruncate (inject_Z 36 + size)%Q) in
  let* view := writeString view 8 "WAVE" in
  let* view := writeString view 12 "fmt " in
  let* view := setUint32 view 16 16 in
  let* view := setUint16 view 20 format in
  let* view := setUint16 view 22 numChannels in
  let* view := setUint32 view 24 sampleRate in
  let* view :=
    setUint32 view 28 (Qtruncate (inject_Z sampleRate * blockAlign)%Q) in
  let* view := setUint16 view 32 (Qtruncate blockAlign) in
  let* view := setUint16 view 34 bitDepth in
  let* view := writeString view 36 "data" in
  let* view := setUint32 view 40 (Qtruncate size) in
  let* view :=
    (if (format =? 1)%Z then floatTo16BitPCM view 44 samples
     else writeFloat32 host view 44 samples) in
  Ok (newBlob view "audio/wav").

(** The [while (index < length)] loop of [interleave]; [index] grows by two
    in each round, which is the measure of the recursion. *)
Equations interleave_loop (inputL inputR result : list number)
  (len index inputIndex : nat) : list number by wf (len - index) lt :=
  interleave_loop inputL inputR result len index inputIndex
    with lt_dec index len := {
    | left _ =>
        let result := ta_set result index (ta_get inputL inputIndex) in
        let result := ta_set result (index + 1) (ta_get inputR inputIndex) in
        interleave_loop inputL inputR result len (index + 2) (inputIndex + 1)
    | right _ => result
    }.
Next Obligation. intros. lia. Qed.

Definition interleave (inputL inputR : list number) : list number :=
  let len := (length inputL + length inputR)%nat in
  interleave_loop inputL inputR (replicate len (Fin 0)) len 0 0.

Definition audioBufferToWav (host : Host) (buffer : AudioBuffer) : result Blob :=
  let numChannels := numberOfChannels buffer in
  let sampleRate := sampleRate buffer in
  let format := 1%Z in
  let bitDepth := 16%Z in
  let* result :=
    (if (numChannels =? 2)%nat then
       let* inputL := getChannelData buffer 0 in
       let* inputR := getChannelData buffer 1 in
       Ok (interleave inputL inputR)
     else getChannelData buffer 0) in
  encodeWAV host result format sampleRate (Z.of_nat numChannels) bitDepth.

(** ** PCM decoding *)

(** [a / b] for two lengths. *)
Definition js_div (a b : nat) : number :=
  match b with
  | O => match a with O => NaN | S _ => PosInf end
  | S _ => Fin (Z.of_nat a # Pos.of_nat b)
  end.

(** The conversion of a [number] to the [unsigned long] length argument of
    [createBuffer]: non-finite values become 0, finite ones are truncated.
    The length argument of a typed array is converted the same way.
    (The reduction modulo 2^32 is left out: it is the identity on the length
    of any array the platform can hold.) *)
Definition to_length (v : number) : nat :=
  match v with
  | Fin q => Z.to_nat (Qtruncate q)
  | _ => 0%nat
  end.

(** The number of rounds of [for (let i = 0; i < bound; i++)].  The module
    runs such a loop only inside the loop over the channels, which has no
    round when [numChannels] is 0, the one case of a non-finite bound. *)
Definition loop_count (bound : number) : nat :=
  match bound with
  | Fin q => Z.to_nat (Qceiling q)
  | _ => 0%nat
  end.

(** [ctx.createBuffer(numChannels, length, sampleRate)]: a buffer of silence,
    or an exception when the host rejects the arguments. *)
Definition createBuffer (host : Host) (numChannels : nat) (length : number)
  (sampleRate : Z) : result AudioBuffer :=
  let length := to_length length in
  if bufferAllowed host numChannels length sampleRate
  then Ok (mkAudioBuffer sampleRate
             (replicate numChannels (replicate length (Fin 0))))
  else Err AllocationError.

(** [new Int16Array(buffer, byteOffset, length)]: [RangeError] when
    [byteOffset] is not a multiple of the element size, or when the elements
    do not fit in the buffer; the length argument is truncated to an
    integer. *)
Definition Int16Array (buffer : list byte) (byteOffset : nat)
  (length : number) : result (list Z) :=
  let length := to_length length in
  if negb (Nat.even byteOffset) then Err RangeError
  else if (byteOffset + 2 * length <=? List.length buffer)%nat
  then Ok (int16_elements (take (2 * length) (drop byteOffset buffer)))
  else Err RangeError.

(** [dataInt16[k] / 32768.0]; an index outside the array reads [undefined]. *)
Definition int16_to_float (v : option Z) : number :=
  match v with
  | Some k => Fin (k # 32768)
  | None => NaN
  end.

Fixpoint for_each {A S} (l : list A) (s : S) (body : S -> A -> result S)
  : result S :=
  match l with
  | [] => Ok s
  | a :: l => let* s := body s a in for_each l s body
  end.

(** The inner loop of [decodeAudioData], on the channel's [Float32Array]. *)
Definition decode_channel (dataInt16 : list Z) (numChannels : nat)
  (frameCount : number) (channel : nat) (channelData : list number)
  : list number :=
  foldl (fun channelData i =>
           ta_set channelData i
             (int16_to_float (dataInt16 !! (i * numChannels + channel)%nat)))
    channelData (seq 0 (loop_count frameCount)).

(** [getChannelData] returns the channel's own storage, so the stores of the
    inner loop land in the buffer. *)
Definition storeChannel (b : AudioBuffer) (channel : nat) (d : list number)
  : AudioBuffer :=
  mkAudioBuffer (sampleRate b) (<[channel := d]> (channelData b)).

Definition decodeAudioData (host : Host) (data : Uint8Array)
  (sampleRate : Z) (numChannels : nat) : result AudioBuffer :=
  let* dataInt16 :=
    Int16Array (ua_buffer data) (byteOffset data)
      (js_div (byteLength data) 2) in
  let frameCount := js_div (length dataInt16) numChannels in
  let* buffer := createBuffer host numChannels frameCount sampleRate in
  for_each (seq 0 numChannels) buffer (fun buffer channel =>
    let* channelData := getChannelData buffer channel in
    Ok (storeChannel buffer channel
          (decode_channel dataInt16 numChannels frameCount channel
             channelData))).

(** ** The format probe *)

Record AudioFormat : Type := mkAudioFormat {
  label : string;
  mimeType : string;
  ext : string
}.

Record Candidate : Type := mkCandidate {
  c_mime : string;
  c_ext : string;
  c_label : string
}.

Definition wavFormat : AudioFormat :=
  mkAudioFormat "WAV (Uncompressed)" "audio/wav" "wav".

Definition candidates : list Candidate :=
  [ mkCandidate "audio/mp4" "mp4" "MP4 (AAC)";
    mkCandidate "audio/webm;codecs=opus" "webm" "WebM (Opus)";
    mkCandidate "audio/webm" "webm" "WebM";
    mkCandidate "audio/ogg" "ogg" "Ogg (Vorbis)" ].

(** The body of [candidates.forEach(c => ...)], on the [formats] array. *)
Definition probe (isTypeSupported : string -> bool)
  (formats : list AudioFormat) (c : Candidate) : list AudioFormat :=
  if isTypeSupported (c_mime c) then
    match find (fun f => String.eqb (mimeType f) (c_mime c)) formats with
    | None => formats ++ [mkAudioFormat (c_label c) (c_mime c) (c_ext c)]
    | Some _ => formats
    end
  else formats.

Definition getSupportedFormats (host : Host) : list AudioFormat :=
  let formats := [wavFormat] in
  match mediaRecorder host with
  | Some isTypeSupported => foldl (probe isTypeSupported) formats candidates
  | None => formats
  end.

(** ** The transcoder

    [transcodeToBlob] sets up a context, a recorder and four callbacks, and
    returns a promise; what happens next is driven by the events the platform
    delivers.  The state below is what the callbacks can observe or change. *)

Inductive CtxState : Type := Running | Closed.
Inductive RecorderState : Type := Inactive | Recording.
Inductive Promise : Type :=
  | Pending
  | Resolved (b : Blob)
  | Rejected (e : error).

Record Transcode : Type := mkTranscode {
  ctx : CtxState;             (* the context opened by the call *)
  releases : nat;             (* calls of [ctx.close()] that released it *)
  closeCalls : nat;           (* all calls of [ctx.close()] *)
  chunks : list (list byte);  (* the [chunks] array *)
  recorder : RecorderState;   (* [recorder.state] *)
  timers : nat;               (* timeouts set and not yet fired *)
  promise : Promise           (* the promise returned to the caller *)
}.

Inductive Event : Type :=
  | DataAvailable (data : list byte)  (* the recorder's [dataavailable] *)
  | Stop                              (* the recorder's [stop] *)
  | Error                             (* the recorder's [error] *)
  | Ended                             (* the source's [ended] *)
  | Timeout.                          (* a pending timeout fires *)

(** [ctx.close()]: releases a running context; on a closed one the call
    releases nothing. *)
Definition ctx_close (st : Transcode) : Transcode :=
  mkTranscode Closed
    (match ctx st with Running => S (releases st) | Closed => releases st end)
    (S (closeCalls st)) (chunks st) (recorder st) (timers st) (promise st).

(** [resolve] and [reject]: only the first call settles the promise. *)
Definition settle (p : Promise) (st : Transcode) : Transcode :=
  match promise st with
  | Pending =>
      mkTranscode (ctx st) (releases st) (closeCalls st) (chunks st)
        (recorder st) (timers st) p
  | _ => st
  end.

Definition set_recorder (r : RecorderState) (st : Transcode) : Transcode :=
  mkTranscode (ctx st) (releases st) (closeCalls st) (chunks st) r
    (timers st) (promise st).

(** One event, handled by the callback the module registered for it.  The
    platform has made the recorder inactive when it delivers [stop]. *)
Definition handle (mimeType : string) (st : Transcode) (e : Event)
  : Transcode :=
  match e with
  | DataAvailable data =>
      if (0 <? length data)%nat then
        mkTranscode (ctx st) (releases st) (closeCalls st)
          (chunks st ++ [data]) (recorder st) (timers st) (promise st)
      else st
  | Stop =>
      let blob := newBlob (concat (chunks st)) mimeType in
      settle (Resolved blob) (ctx_close (set_recorder Inactive st))
  | Error => settle (Rejected TranscodeError) (ctx_close st)
  | Ended =>
      mkTranscode (ctx st) (releases st) (closeCalls st) (chunks st)
        (recorder st) (S (timers st)) (promise st)
  | Timeout =>
      match timers st with
      | O => st
      | S n =>
          mkTranscode (ctx st) (releases st) (closeCalls st) (chunks st)
            (match recorder st with
             | Inactive => Inactive
             | Recording => Inactive  (* [recorder.stop()] *)
             end)
            n (promise st)
      end
  end.

(** The call and the events that follow it.  The context is created first;
    [new MediaRecorder] throws when the global is missing or the MIME type is
    not supported, which rejects the promise of the [async] function before
    any callback is registered. *)
Definition transcodeToBlob (host : Host) (audioBuffer : AudioBuffer)
  (mimeType : string) (events : list Event) : Transcode :=
  let opened := mkTranscode Running 0 0 [] Inactive 0 Pending in
  match mediaRecorder host with
  | None => settle (Rejected ReferenceError) opened
  | Some isTypeSupported =>
      if isTypeSupported mimeType
      then foldl (handle mimeType) (set_recorder Recording opened) events
      else settle (Rejected UnsupportedFormatError) opened
  end.

(** ** Reference definitions

    What the functions above are compared with: readers of the encoded
    file, closed forms of the loops, and the rules of the specification in
    its own words. *)

(** The 16-bit samples of the [data] chunk of an encoded file, read back. *)
Definition pcm_payload (bytes : list byte) : list Z :=
  int16_elements (drop 44 bytes).

(** The 16-bit value [floatTo16BitPCM] stores for one sample. *)
Definition pcm16 (x : number) : Z :=
  let s := Math_max (Fin (-1)) (Math_min (Fin 1) x) in
  ToInt16 (if num_ltb s (Fin 0) then num_mul s (Fin 32768)
           else num_mul s (Fin 32767)).

Definition pcm_bytes (input : list number) : list byte :=
  flat_map (fun x => le_split 2 (pcm16 x)) input.

Fixpoint string_bytes (s : string) : list byte :=
  match s with
  | EmptyString => []
  | String c rest => byte.of_Z (charCodeAt c) :: string_bytes rest
  end.

(** The header of section 4.1 of the specification, field by field, for a
    data chunk of [sampleCount] samples. *)
Definition wav_header (sampleCount : nat) (sampleRate numChannels : Z)
  : list byte :=
  let dataSize := (Z.of_nat sampleCount * 2)%Z in
  let blockAlign := (numChannels * 2)%Z in
  string_bytes "RIFF" ++ le_split 4 (36 + dataSize)
  ++ string_bytes "WAVE" ++ string_bytes "fmt " ++ le_split 4 16
  ++ le_split 2 1 ++ le_split 2 numChannels ++ le_split 4 sampleRate
  ++ le_split 4 (sampleRate * blockAlign) ++ le_split 2 blockAlign
  ++ le_split 2 16 ++ string_bytes "data" ++ le_split 4 dataSize.

(** The claim of the specification about one sample, in its words: clamp to
    [-1, 1], scale by 32767 when the clamped value is at least 0 and by 32768
    otherwise, truncate. *)
Definition Qclamp (q : Q) : Q := Qmax (-1) (Qmin 1 q).

Definition pcm16_spec (q : Q) : Z :=
  let c := Qclamp q in
  if Qle_bool 0 c then Qtruncate (c * 32767) else Qtruncate (c * 32768).

(** [[L0, R0, L1, R1, ...]] *)
Fixpoint alternate {A} (L R : list A) : list A :=
  match L, R with
  | l :: L, r :: R => l :: r :: alternate L R
  | _, _ => []
  end.

(** The samples [audioBufferToWav] hands to [encodeWAV]. *)
Definition encoded_samples (buffer : AudioBuffer) : list number :=
  match channelData buffer with
  | [inputL; inputR] => interleave inputL inputR
  | channel0 :: _ => channel0
  | [] => []
  end.

(** The number of channels the data chunk holds. *)
Definition storedChannels (numChannels : nat) : nat :=
  if (numChannels =? 2)%nat then 2%nat else 1%nat.

(** Whether every value of the header fits the width of its field. *)
Definition header_fits (buffer : AudioBuffer) : bool :=
  let channels := Z.of_nat (numberOfChannels buffer) in
  let dataSize := (Z.of_nat (length (encoded_samples buffer)) * 2)%Z in
  (0 <=? sampleRate buffer)%Z
  && (sampleRate buffer * (channels * 2) <? 2 ^ 32)%Z
  && (channels * 2 <? 2 ^ 16)%Z
  && (36 + dataSize <? 2 ^ 32)%Z.

(** The fields of a RIFF/WAVE header, as a reader of the file finds them. *)
Record WavHeader : Type := mkWavHeader {
  hdr_ChunkID : list byte;
  hdr_ChunkSize : Z;
  hdr_Format : list byte;
  hdr_Subchunk1ID : list byte;
  hdr_Subchunk1Size : Z;
  hdr_AudioFormat : Z;
  hdr_NumChannels : Z;
  hdr_SampleRate : Z;
  hdr_ByteRate : Z;
  hdr_BlockAlign : Z;
  hdr_BitsPerSample : Z;
  hdr_Subchunk2ID : list byte;
  hdr_Subchunk2Size : Z
}.

Definition read_header (file : list byte) : WavHeader :=
  mkWavHeader (take 4 file) (getUint32 file 4) (take 4 (drop 8 file))
    (take 4 (drop 12 file)) (getUint32 file 16) (getUint16 file 20)
    (getUint16 file 22) (getUint32 file 24) (getUint32 file 28)
    (getUint16 file 32) (getUint16 file 34) (take 4 (drop 36 file))
    (getUint32 file 40).

(** The samples of channel [channel] after decoding. *)
Definition decoded_channel (dataInt16 : list Z) (numChannels frames : nat)
  (channel : nat) : list number :=
  map (fun i => int16_to_float (dataInt16 !! (i * numChannels + channel)%nat))
    (seq 0 frames).

Definition formatOf (c : Candidate) : AudioFormat :=
  mkAudioFormat (c_label c) (c_mime c) (c_ext c).

(** What the platform can record: nothing when it has no [MediaRecorder]. *)
Definition capability (host : Host) : string -> bool :=
  match mediaRecorder host with
  | Some isTypeSupported => isTypeSupported
  | None => fun _ => false
  end.

(** Once the recorder exists, the promise is settled only by a callback that
    has just closed the context. *)
Definition settled_closed (st : Transcode) : Prop :=
  (promise st = Pending /\ ctx st = Running /\ releases st = 0%nat)
  \/ (promise st <> Pending /\ ctx st = Closed /\ releases st = 1%nat).

(** ** Examples *)

(** A host for examples: a platform whose buffers hold 1 to 32 channels, at
    least one frame and 3000 to 768000 Hz, and whose recorder handles WebM
    only.  The binary32 encoder is never reached by the module. *)
Definition exampleHost : Host :=
  mkHost (fun _ => 0%Z)
    (fun c n r =>
       (1 <=? c)%nat && (c <=? 32)%nat && (1 <=? n)%nat
       && (3000 <=? r)%Z && (r <=? 768000)%Z)
    (Some (fun m => String.eqb m "audio/webm;codecs=opus"
                    || String.eqb m "audio/webm")).

Definition stereoExample : AudioBuffer :=
  mkAudioBuffer 24000
    [[Fin (1 # 2); Fin (-1 # 2)]; [Fin (1 # 4); Fin (-1 # 4)]].

Definition monoExample : AudioBuffer :=
  mkAudioBuffer 24000 [[Fin (1 # 2); Fin (-1 # 2); Fin 0]].

Definition threeChannelExample : AudioBuffer :=
  mkAudioBuffer 48000 [[Fin (1 # 2)]; [Fin (1 # 4)]; [Fin (1 # 8)]].

Definition extremesExample : list byte :=
  [Byte.x00; Byte.x80; Byte.xff; Byte.x7f].

Definition oneStepExample : list byte := [Byte.x01; Byte.x00].


(** ** Base64 payloads *)

(** [binaryString.charCodeAt(i)]: NaN outside the string, which a
    [Uint8Array] stores as 0. *)
Definition charCodeAt_at (s : string) (i : nat) : Z :=
  match String.get i s with
  | Some c => charCodeAt c
  | None => 0%Z
  end.

(** [decodeBase64]; [atob] is the platform's decoder, which returns a binary
    string (one character per byte) or throws on a malformed payload. *)
Definition decodeBase64 (atob : string -> option string) (base64 : string)
  : result (list byte) :=
  match atob base64 with
  | None => Err MalformedInputError
  | Some binaryString =>
      let len := String.length binaryString in
      let bytes := replicate len Byte.x00 in
      Ok (foldl (fun bytes i =>
                   ta_set bytes i (byte.of_Z (charCodeAt_at binaryString i)))
            bytes (seq 0 len))
  end.

(** The two steps [handleGenerate] applies to the payload it receives:
    [decodeAudioData] is called with its default rate and channel count. *)
Definition decodePayload (host : Host) (atob : string -> option string)
  (base64Audio : string) : result AudioBuffer :=
  let* rawBytes := decodeBase64 atob base64Audio in
  decodeAudioData host (freshArray rawBytes) 24000 1.

(** What [interleave] leaves at index [i] of its result: the left sample of
    frame [i / 2] at an even index and the right one at an odd index, NaN
    where the channel has no such frame. *)
Definition interleaved_cell (inputL inputR : list number) (i : nat) : number :=
  if Nat.even i then ta_get inputL (i / 2) else ta_get inputR (i / 2).



(** ** The download handler of the application *)

(** How a call of [handleDownload] ends, with the state it leaves. *)
Inductive Download : Type :=
  | NoBuffer    (* no audio yet: the handler returns at once *)
  | NoFormat    (* [formatInfo] is undefined: reading [formatInfo.ext]
                   throws before the [try] *)
  | Saved (blob : Blob) (ext : string)
                (* the blob is offered under a name with this extension;
                   [isProcessingDownload] is false again *)
  | Failed (message : string)
                (* [setError(message)]; [isProcessingDownload] is false *)
  | Waiting.    (* still awaiting [transcodeToBlob];
                   [isProcessingDownload] is true *)

(** [handleDownload], for the formats and the selection held in the
    component's state; [events] are what the platform delivers to the
    transcoder while the handler awaits it. *)
Definition handleDownload (host : Host) (formats : list AudioFormat)
  (selectedFormat : string) (audioBuffer : option AudioBuffer)
  (events : list Event) : Download :=
  match audioBuffer with
  | None => NoBuffer
  | Some audioBuffer =>
      let formatInfo :=
        match find (fun f => String.eqb (mimeType f) selectedFormat) formats
        with
        | Some f => Some f
        | None => head formats
        end in
      match formatInfo with
      | None => NoFormat
      | Some formatInfo =>
          let failure :=
            Failed "Failed to process download. Please try WAV format." in
          if String.eqb (mimeType formatInfo) "audio/wav" then
            match audioBufferToWav host audioBuffer with
            | Ok blob => Saved blob (ext formatInfo)
            | Err _ => failure
            end
          else
            match promise (transcodeToBlob host audioBuffer
                             (mimeType formatInfo) events) with
            | Resolved blob => Saved blob (ext formatInfo)
            | Rejected _ => failure
            | Pending => Waiting
            end
      end
  end.

(** ** The speech service *)

Inductive VoiceName : Type := Kore | Puck | Charon | Fenrir | Zephyr.

(** The part of the service's response the module reads; every field and
    every array element may be missing. *)
Record GenBlob : Type := mkGenBlob { gen_data : option string }.
Record GenPart : Type := mkGenPart { gen_inlineData : option GenBlob }.
Record GenContent : Type := mkGenContent { gen_parts : option (list GenPart) }.
Record GenCandidate : Type :=
  mkGenCandidate { gen_content : option GenContent }.
Record GenResponse : Type :=
  mkGenResponse { gen_candidates : option (list GenCandidate) }.

(** What awaiting [ai.models.generateContent] gives: an exception, known
    here by its message, or a response. *)
Inductive ApiOutcome : Type :=
  | ApiThrows (message : string)
  | ApiReturns (response : GenResponse).

(** How [generateSpeech] ends: the payload, or an exception with its
    message. *)
Inductive Speech : Type :=
  | Audio (base64Audio : string)
  | Thrown (message : string).

(** [o?.f]: undefined when [o] is, the member otherwise. *)
Definition optional {A B} (o : option A) (f : A -> option B) : option B :=
  match o with
  | Some a => f a
  | None => None
  end.

(** [response.candidates?.[0]?.content?.parts?.[0]?.inlineData?.data] *)
Definition inlineAudio (response : GenResponse) : option string :=
  optional
    (optional
       (optional
          (optional (optional (gen_candidates response) head) gen_content)
          gen_parts)
       head)
    (fun part => optional (gen_inlineData part) gen_data).

(** [generateSpeech]; [ai] stands for the request to the service.  The
    [catch] block logs the exception and throws it again. *)
Definition generateSpeech (ai : string -> VoiceName -> ApiOutcome)
  (text : string) (voice : VoiceName) : Speech :=
  match ai text voice with
  | ApiThrows message => Thrown message
  | ApiReturns response =>
      let base64Audio := inlineAudio response in
      match base64Audio with
      | Some (String c rest) => Audio (String c rest)
      | Some EmptyString | None =>
          Thrown "No audio data received from Gemini API."
      end
  end.

(** A response whose first part of the first candidate carries [data],
    followed by other candidates and parts. *)
Definition responseWith (data : option string) (otherParts : list GenPart)
  (otherCandidates : list GenCandidate) : GenResponse :=
  mkGenResponse
    (Some (mkGenCandidate
             (Some (mkGenContent
                      (Some (mkGenPart (Some (mkGenBlob data))
                             :: otherParts))))
           :: otherCandidates)).

(** The inline data of the first part of the first candidate, read off the
    fields of the response: every field on the way is present, and both
    arrays have a first element. *)
Inductive first_inline_data (response : GenResponse) (data : string)
  : Prop :=
  | first_inline (candidate : GenCandidate) (others : list GenCandidate)
      (content : GenContent) (part : GenPart) (parts : list GenPart)
      (blob : GenBlob) :
      gen_candidates response = Some (candidate :: others) ->
      gen_content candidate = Some content ->
      gen_parts content = Some (part :: parts) ->
      gen_inlineData part = Some blob ->
      gen_data blob = Some data ->
      first_inline_data response data.

(** ** The visualizer

    One frame of the [draw] callback of the [Visualizer] component, as the
    canvas calls it makes.  [frequencyBinCount] is a power of two and the
    canvas sizes are whole numbers, so the bar geometry is exact in binary
    floating point and is given here in exact rationals. *)

(** [a + b] *)
Definition num_add (a b : number) : number :=
  match a, b with
  | NaN, _ | _, NaN => NaN
  | PosInf, NegInf | NegInf, PosInf => NaN
  | PosInf, _ | _, PosInf => PosInf
  | NegInf, _ | _, NegInf => NegInf
  | Fin x, Fin y => Fin (x + y)
  end.

(** [a - b] *)
Definition num_sub (a b : number) : number :=
  match a, b with
  | NaN, _ | _, NaN => NaN
  | PosInf, PosInf | NegInf, NegInf => NaN
  | PosInf, _ | _, NegInf => PosInf
  | NegInf, _ | _, PosInf => NegInf
  | Fin x, Fin y => Fin (x - y)
  end.

Definition nat_num (n : nat) : number := Fin (inject_Z (Z.of_nat n)).

Inductive FillStyle : Type :=
  | Solid (color : string)
  | LinearGradient (x0 y0 x1 y1 : number) (stops : list (number * string)).

Inductive CanvasOp : Type :=
  | ClearRect (x y w h : number)
  | FillRect (style : FillStyle) (x y w h : number)
  | RequestAnimationFrame.

(** The gradient every bar is filled with. *)
Definition barGradient (height : nat) : FillStyle :=
  LinearGradient (Fin 0) (nat_num height) (Fin 0) (Fin 0)
    [(Fin 0, "#3b82f6"%string); (Fin 1, "#8b5cf6"%string)].

(** The loop over the bins: [x] is advanced by [barWidth + 1] per bin. *)
Fixpoint draw_bars (dataArray : list byte) (height : nat)
  (barWidth x : number) : list CanvasOp :=
  match dataArray with
  | [] => []
  | d :: rest =>
      let barHeight := Fin (byte.unsigned d # 2) in
      FillRect (barGradient height) x (num_sub (nat_num height) barHeight)
        barWidth barHeight
      :: draw_bars rest height barWidth (num_add x (num_add barWidth (Fin 1)))
  end.

(** [draw]; [frequencyData] is what [getByteFrequencyData] puts into
    [dataArray], one byte per bin. *)
Definition draw (isPlaying : bool) (width height : nat)
  (frequencyData : list byte) : list CanvasOp :=
  if negb isPlaying then
    [ClearRect (Fin 0) (Fin 0) (nat_num width) (nat_num height)]
  else
    let bufferLength := length frequencyData in
    let barWidth := num_mul (js_div width bufferLength) (Fin (5 # 2)) in
    RequestAnimationFrame
    :: FillRect (Solid "#0f172a") (Fin 0) (Fin 0) (nat_num width)
         (nat_num height)
    :: draw_bars frequencyData height barWidth (Fin 0).

(** ** Reference definitions for the transcoder *)

(** The fragments [ondataavailable] keeps: those of non-zero size, in the
    order of arrival. *)
Fixpoint fragments (events : list Event) : list (list byte) :=
  match events with
  | [] => []
  | DataAvailable data :: events =>
      if (0 <? length data)%nat then data :: fragments events
      else fragments events
  | _ :: events => fragments events
  end.

(** Whether an event is one of the two whose callback closes the context. *)
Definition closes (e : Event) : bool :=
  match e with
  | Stop | Error => true
  | _ => false
  end.

(** The state in which [transcodeToBlob] leaves the call once the recorder
    is constructed and started. *)
Definition recording_start : Transcode :=
  set_recorder Recording (mkTranscode Running 0 0 [] Inactive 0 Pending).

(** An [atob] for examples: the platform's decoder at the one payload
    [AID/fw==], the base64 form of the bytes 00 80 FF 7F. *)
Definition exampleAtob (base64 : string) : option string :=
  if String.eqb base64 "AID/fw=="
  then Some (String (Ascii.ascii_of_nat 0)
               (String (Ascii.ascii_of_nat 128)
                  (String (Ascii.ascii_of_nat 255)
                     (String (Ascii.ascii_of_nat 127) EmptyString))))
  else None.

(** * Properties *)

(** ** Writes into a [DataView] *)

Lemma dv_write_app (pre old rest bs : list byte) :
  length old = length bs ->
  dv_write (pre ++ old ++ rest) (length pre) bs = Ok (pre ++ bs ++ rest).
Proof.
  intros Hlen. unfold dv_write.
  rewrite !length_app, Hlen.
  destruct (Nat.leb_spec (length pre + length bs)
              (length pre + (length bs + length rest))) as [_|Hlt]; [|lia].
  f_equal.
  replace (length pre) with (length pre + 0)%nat at 1 by lia.
  rewrite list_inserts_app_r. f_equal.
  apply list_inserts_0_r. symmetry. exact Hlen.
Qed.

Lemma length_pcm_bytes (input : list number) :
  length (pcm_bytes input) = (2 * length input)%nat.
Proof.
  induction input as [|x input IH]; [reflexivity|].
  unfold pcm_bytes in *. cbn [flat_map].
  rewrite length_app, IH, length_le_split. cbn [length]. lia.
Qed.

Lemma floatTo16BitPCM_app (input : list number) :
  forall pre rest : list byte,
    length rest = (2 * length input)%nat ->
    floatTo16BitPCM (pre ++ rest) (length pre) input
    = Ok (pre ++ pcm_bytes input).
Proof.
  induction input as [|x input IH]; intros pre rest Hlen.
  - destruct rest; [|discriminate]. reflexivity.
  - destruct rest as [|a [|b rest]]; cbn [length] in Hlen; try lia.
    cbn [floatTo16BitPCM]. fold (pcm16 x). unfold setInt16.
    change (a :: b :: rest) with ([a; b] ++ rest).
    rewrite dv_write_app by (rewrite length_le_split; reflexivity).
    cbn [bind].
    replace (length pre + 2)%nat with (length (pre ++ le_split 2 (pcm16 x)))
      by (rewrite length_app, length_le_split; reflexivity).
    rewrite app_assoc, IH by lia.
    unfold pcm_bytes. cbn [flat_map]. rewrite <- app_assoc. reflexivity.
Qed.

Lemma floatTo16BitPCM_at (input : list number) (view : list byte)
  (offset : nat) :
  length view = (offset + 2 * length input)%nat ->
  floatTo16BitPCM view offset input
  = Ok (take offset view ++ pcm_bytes input).
Proof.
  intros Hlen.
  pose proof (floatTo16BitPCM_app input (take offset view) (drop offset view))
    as H.
  rewrite take_drop, length_take, length_drop in H.
  replace (offset `min` length view)%nat with offset in H by lia.
  apply H. lia.
Qed.

(** ** The layout of the encoded file *)

Lemma Qtruncate_sum (a n d : Z) :
  Qtruncate (inject_Z a + inject_Z n * (d # 8)) = Z.quot (a * 8 + n * d) 8.
Proof.
  unfold Qtruncate. cbn [Qplus Qmult Qnum Qden inject_Z Pos.mul].
  f_equal. lia.
Qed.

Lemma Qtruncate_product (a n d : Z) :
  Qtruncate (inject_Z a * (inject_Z n * (d # 8))) = Z.quot (a * (n * d)) 8.
Proof. reflexivity. Qed.

Lemma Qtruncate_scaled (n d : Z) :
  Qtruncate (inject_Z n * (d # 8)) = Z.quot (n * d) 8.
Proof. reflexivity. Qed.

Lemma quot_sum_16 (a n : Z) : Z.quot (a * 8 + n * 16) 8 = (a + n * 2)%Z.
Proof.
  replace (a * 8 + n * 16)%Z with ((a + n * 2) * 8)%Z by lia.
  apply Z.quot_mul. lia.
Qed.

Lemma quot_16 (n : Z) : Z.quot (n * 16) 8 = (n * 2)%Z.
Proof.
  replace (n * 16)%Z with (n * 2 * 8)%Z by lia. apply Z.quot_mul. lia.
Qed.

Lemma quot_product_16 (a n : Z) :
  Z.quot (a * (n * 16)) 8 = (a * (n * 2))%Z.
Proof.
  replace (a * (n * 16))%Z with (a * (n * 2) * 8)%Z by lia.
  apply Z.quot_mul. lia.
Qed.

Lemma encodeWAV_layout (host : Host) (samples : list number)
  (sampleRate numChannels : Z) :
  encodeWAV host samples 1 sampleRate numChannels 16
  = Ok (mkBlob (wav_header (length samples) sampleRate numChannels
                ++ pcm_bytes samples) "audio/wav").
Proof.
  unfold encodeWAV, wav_header, ArrayBuffer, newBlob.
  rewrite !Qtruncate_sum, Qtruncate_product, !Qtruncate_scaled.
  rewrite !quot_sum_16, quot_product_16, !quot_16.
  destruct (Z.ltb_spec (44 + Z.of_nat (length samples) * 2) 0) as [Hneg|_];
    [lia|].
  cbn [bind].
  replace (Z.to_nat (44 + Z.of_nat (length samples) * 2))
    with (44 + 2 * length samples)%nat by lia.
  rewrite replicate_add.
  assert (Hrest : length (replicate (2 * length samples) Byte.x00)
                  = (2 * length samples)%nat) by apply length_replicate.
  revert Hrest. generalize (replicate (2 * length samples) Byte.x00).
  intros rest Hrest.
  generalize (Z.of_nat (length samples) * 2)%Z. intros size.
  cbv [replicate app writeString setUint8 setUint32 setUint16 dv_write bind
       length Nat.add Nat.leb le_split list_inserts insert list_insert
       Z.eqb Pos.eqb string_bytes].
  rewrite floatTo16BitPCM_at by (cbn [length]; lia).
  reflexivity.
Qed.

(** ** Interleaving *)

Lemma interleave_loop_length (inputL inputR result : list number)
  (len index inputIndex : nat) :
  length (interleave_loop inputL inputR result len index inputIndex)
  = length result.
Proof.
  funelim (interleave_loop inputL inputR result len index inputIndex);
    [|reflexivity].
  cbv zeta in H. rewrite H. unfold ta_set. rewrite !length_insert.
  reflexivity.
Qed.

Lemma interleave_length (inputL inputR : list number) :
  length (interleave inputL inputR) = (length inputL + length inputR)%nat.
Proof.
  unfold interleave. rewrite interleave_loop_length. apply length_replicate.
Qed.

Lemma interleave_loop_alternate (inputL inputR : list number) :
  length inputL = length inputR ->
  forall (m k : nat) (done rest : list number),
    (k + m)%nat = length inputL ->
    length done = (2 * k)%nat ->
    length rest = (2 * m)%nat ->
    interleave_loop inputL inputR (done ++ rest) (2 * length inputL) (2 * k) k
    = done ++ alternate (drop k inputL) (drop k inputR).
Proof.
  intros HLR. induction m as [|m IH]; intros k done rest Hk Hdone Hrest.
  - rewrite interleave_loop_equation_1.
    destruct (lt_dec (2 * k) (2 * length inputL)) as [Hlt|Hge]; [lia|].
    cbn [interleave_loop_unfold_clause_1].
    destruct rest; [|discriminate].
    rewrite (drop_ge inputL) by lia. reflexivity.
  - rewrite interleave_loop_equation_1.
    destruct (lt_dec (2 * k) (2 * length inputL)) as [Hlt|Hge]; [|lia].
    cbn [interleave_loop_unfold_clause_1]. cbv zeta.
    destruct (lookup_lt_is_Some_2 inputL k) as [l Hl]; [lia|].
    destruct (lookup_lt_is_Some_2 inputR k) as [r Hr]; [lia|].
    destruct rest as [|a [|b rest]]; cbn [length] in Hrest; try lia.
    unfold ta_set, ta_get. rewrite Hl, Hr. cbn [default from_option id].
    rewrite insert_app_r_alt by lia.
    replace (2 * k - length done)%nat with 0%nat by lia. cbn [insert list_insert].
    rewrite insert_app_r_alt by lia.
    replace (2 * k + 1 - length done)%nat with 1%nat by lia.
    cbn [insert list_insert].
    replace (2 * k + 2)%nat with (2 * (k + 1))%nat by lia.
    change (done ++ l :: r :: rest) with (done ++ [l; r] ++ rest).
    rewrite app_assoc, IH; [| lia | rewrite length_app; cbn [length]; lia | lia].
    rewrite (drop_S inputL l k Hl), (drop_S inputR r k Hr).
    replace (k + 1)%nat with (S k) by lia.
    cbn [alternate]. rewrite <- app_assoc. reflexivity.
Qed.

Lemma interleave_alternate (inputL inputR : list number) :
  length inputL = length inputR ->
  interleave inputL inputR = alternate inputL inputR.
Proof.
  intros HLR. unfold interleave.
  pose proof (interleave_loop_alternate inputL inputR HLR
                (length inputL) 0 [] (replicate (2 * length inputL) (Fin 0)))
    as H.
  cbn [app drop Nat.mul] in H.
  replace (length inputL + length inputR)%nat
    with (2 * length inputL)%nat by lia.
  apply H; [lia | reflexivity | apply length_replicate].
Qed.

(** ** Sample conversion *)

Lemma to_signed16_range (z : Z) : (-32768 <= to_signed16 z <= 32767)%Z.
Proof.
  unfold to_signed16.
  pose proof (Z.mod_pos_bound z 65536 eq_refl) as Hm.
  destruct (Z.leb_spec 32768 (z mod 65536)); lia.
Qed.

Lemma to_signed16_small (z : Z) :
  (-32768 <= z <= 32767)%Z -> to_signed16 z = z.
Proof.
  intros Hz. unfold to_signed16.
  destruct (Z_lt_le_dec z 0) as [Hneg|Hpos].
  - replace (z mod 65536)%Z with (z + 65536)%Z.
    + destruct (Z.leb_spec 32768 (z + 65536)); lia.
    + apply Z.mod_unique with (q := (-1)%Z); lia.
  - rewrite Z.mod_small by lia.
    destruct (Z.leb_spec 32768 z); lia.
Qed.

Lemma to_signed16_mod (z : Z) : to_signed16 (z mod 65536) = to_signed16 z.
Proof. unfold to_signed16. rewrite Z.mod_mod by lia. reflexivity. Qed.

Lemma Qltb_compare (x y : Q) :
  Qltb x y = match Qcompare x y with Lt => true | _ => false end.
Proof.
  unfold Qltb, Qle_bool, Qcompare, Z.leb.
  rewrite (Z.compare_antisym (Qnum x * Z.pos (Qden y))).
  destruct (Qnum x * Z.pos (Qden y) ?= Qnum y * Z.pos (Qden x))%Z;
    reflexivity.
Qed.

Lemma Qltb_lt (x y : Q) : Qltb x y = true <-> (x < y)%Q.
Proof.
  rewrite Qltb_compare, Qlt_alt. destruct (x ?= y)%Q; split; congruence.
Qed.

(** The clamp of the loop is the clamp of the specification. *)
Lemma clamp_Fin (q : Q) :
  Math_max (Fin (-1)) (Math_min (Fin 1) (Fin q)) = Fin (Qclamp q).
Proof.
  unfold Qclamp, Qmax, Qmin, GenericMinMax.gmax, GenericMinMax.gmin.
  cbn [Math_min num_ltb]. rewrite Qltb_compare.
  rewrite <- (Qcompare_antisym q 1).
  destruct (q ?= 1)%Q eqn:Hq1; cbn [CompOpp Math_max num_ltb];
    rewrite Qltb_compare;
    match goal with
    | |- context [(?a ?= ?b)%Q] => destruct (a ?= b)%Q
    end; reflexivity.
Qed.

Lemma Qclamp_range (q : Q) : (-1 <= Qclamp q <= 1)%Q.
Proof.
  unfold Qclamp. split.
  - apply Q.le_max_l.
  - apply Q.max_lub; [discriminate | apply Q.le_min_l].
Qed.

Lemma Qtruncate_scaled_range (c : Q) (k : positive) :
  (-1 <= c <= 1)%Q ->
  (- Z.pos k <= Qtruncate (c * (Z.pos k # 1)) <= Z.pos k)%Z.
Proof.
  destruct c as [n d]. unfold Qle, Qtruncate. cbn [Qnum Qden Qmult].
  intros [Hlo Hhi].
  rewrite Pos.mul_1_r.
  assert (Hd : (0 < Z.pos d)%Z) by lia.
  split.
  - rewrite <- (Z.quot_mul (- Z.pos k) (Z.pos d)) by lia.
    apply Z.quot_le_mono; [lia | nia].
  - rewrite <- (Z.quot_mul (Z.pos k) (Z.pos d)) at 2 by lia.
    apply Z.quot_le_mono; [lia | nia].
Qed.

Lemma Qtruncate_nonneg (c : Q) : (0 <= c)%Q -> (0 <= Qtruncate c)%Z.
Proof.
  destruct c as [n d]. unfold Qle, Qtruncate. cbn [Qnum Qden].
  intros H. apply Z.quot_pos; lia.
Qed.

(** For a finite sample the stored value is the one the specification
    describes: the wrap of [setInt16] is never reached. *)
Lemma pcm16_Fin (q : Q) : pcm16 (Fin q) = pcm16_spec q.
Proof.
  unfold pcm16, pcm16_spec. rewrite clamp_Fin.
  pose proof (Qclamp_range q) as Hc.
  cbn [num_ltb]. unfold Qltb.
  destruct (Qle_bool 0 (Qclamp q)) eqn:H0; cbn [negb num_mul ToInt16].
  - apply to_signed16_small.
    pose proof (Qtruncate_scaled_range (Qclamp q) 32767 Hc) as Hr.
    assert (0 <= Qtruncate (Qclamp q * 32767))%Z; [|lia].
    apply Qtruncate_nonneg. apply Qle_bool_iff in H0.
    apply Qmult_le_0_compat; [exact H0 | discriminate].
  - apply to_signed16_small.
    pose proof (Qtruncate_scaled_range (Qclamp q) 32768 Hc) as Hr.
    assert (Qtruncate (Qclamp q * 32768) <= 0)%Z; [|lia].
    destruct (Qclamp q) as [n d]. unfold Qle_bool in H0. cbn [Qnum Qden] in H0.
    unfold Qtruncate. cbn [Qnum Qden Qmult].
    apply Z.leb_gt in H0.
    rewrite <- (Z.quot_0_l (Z.pos (d * 1))) by lia.
    apply Z.quot_le_mono; lia.
Qed.

Lemma ToInt16_range (v : number) : (-32768 <= ToInt16 v <= 32767)%Z.
Proof. destruct v; cbn [ToInt16]; try lia. apply to_signed16_range. Qed.

Lemma pcm16_range (x : number) : (-32768 <= pcm16 x <= 32767)%Z.
Proof. apply ToInt16_range. Qed.

Lemma int16_elements_le_split (v : Z) (rest : list byte) :
  int16_elements (le_split 2 v ++ rest) = to_signed16 v :: int16_elements rest.
Proof.
  change (le_split 2 v ++ rest)
    with (byte.of_Z v :: byte.of_Z (Z.shiftr v 8) :: rest).
  cbn [int16_elements]. f_equal.
  change [byte.of_Z v; byte.of_Z (Z.shiftr v 8)] with (le_split 2 v).
  rewrite le_combine_split. apply to_signed16_mod.
Qed.

(** Reading the payload back gives the stored 16-bit values. *)
Lemma int16_elements_pcm_bytes (input : list number) :
  int16_elements (pcm_bytes input) = map pcm16 input.
Proof.
  induction input as [|x input IH]; [reflexivity|].
  unfold pcm_bytes in *. cbn [flat_map map].
  rewrite int16_elements_le_split, IH.
  rewrite to_signed16_small by apply pcm16_range. reflexivity.
Qed.

Lemma length_wav_header (sampleCount : nat) (sampleRate numChannels : Z) :
  length (wav_header sampleCount sampleRate numChannels) = 44%nat.
Proof. reflexivity. Qed.

Lemma pcm_payload_layout (sampleCount : nat) (sampleRate numChannels : Z)
  (input : list number) :
  pcm_payload (wav_header sampleCount sampleRate numChannels
               ++ pcm_bytes input)
  = map pcm16 input.
Proof.
  unfold pcm_payload.
  rewrite drop_app_length'
    by apply (length_wav_header sampleCount sampleRate numChannels).
  apply int16_elements_pcm_bytes.
Qed.

Ltac fold_le_combine :=
  repeat match goal with
    | |- context [le_combine [byte.of_Z ?v; byte.of_Z (Z.shiftr ?v 8);
                   byte.of_Z (Z.shiftr (Z.shiftr ?v 8) 8);
                   byte.of_Z (Z.shiftr (Z.shiftr (Z.shiftr ?v 8) 8) 8)]] =>
        change (le_combine [byte.of_Z v; byte.of_Z (Z.shiftr v 8);
                   byte.of_Z (Z.shiftr (Z.shiftr v 8) 8);
                   byte.of_Z (Z.shiftr (Z.shiftr (Z.shiftr v 8) 8) 8)])
          with (le_combine (le_split 4 v));
        rewrite (le_combine_split 4 v)
    | |- context [le_combine [byte.of_Z ?v; byte.of_Z (Z.shiftr ?v 8)]] =>
        change (le_combine [byte.of_Z v; byte.of_Z (Z.shiftr v 8)])
          with (le_combine (le_split 2 v));
        rewrite (le_combine_split 2 v)
    end.

(** Every field reads back as the value written, reduced to the width of
    the field. *)
Lemma read_header_layout (sampleCount : nat) (sampleRate numChannels : Z)
  (payload : list byte) :
  read_header (wav_header sampleCount sampleRate numChannels ++ payload)
  = mkWavHeader (string_bytes "RIFF")
      ((36 + Z.of_nat sampleCount * 2) mod 2 ^ 32)
      (string_bytes "WAVE") (string_bytes "fmt ") 16 1
      (numChannels mod 2 ^ 16) (sampleRate mod 2 ^ 32)
      ((sampleRate * (numChannels * 2)) mod 2 ^ 32)
      ((numChannels * 2) mod 2 ^ 16) 16 (string_bytes "data")
      ((Z.of_nat sampleCount * 2) mod 2 ^ 32).
Proof.
  unfold read_header, getUint32, getUint16.
  cbv [wav_header app string_bytes le_split take drop].
  fold_le_combine. reflexivity.
Qed.

(** ** [audioBufferToWav] *)

Lemma audioBufferToWav_layout (host : Host) (buffer : AudioBuffer) :
  channelData buffer <> [] ->
  audioBufferToWav host buffer
  = Ok (mkBlob
          (wav_header (length (encoded_samples buffer)) (sampleRate buffer)
             (Z.of_nat (numberOfChannels buffer))
           ++ pcm_bytes (encoded_samples buffer)) "audio/wav").
Proof.
  destruct buffer as [rate chans]. cbn [channelData]. intros Hne.
  unfold audioBufferToWav, numberOfChannels, encoded_samples, getChannelData.
  cbn [channelData sampleRate].
  destruct chans as [|c0 [|c1 [|c2 more]]]; [congruence| | |];
    cbn [length Nat.eqb lookup list_lookup bind]; apply encodeWAV_layout.
Qed.

(** Under [header_fits], the header reads back as the table of section 4.1
    of the specification. *)
Lemma read_header_table (buffer : AudioBuffer) (payload : list byte) :
  channelData buffer <> [] ->
  header_fits buffer = true ->
  let channels := Z.of_nat (numberOfChannels buffer) in
  let dataSize := (Z.of_nat (length (encoded_samples buffer)) * 2)%Z in
  read_header
    (wav_header (length (encoded_samples buffer)) (sampleRate buffer) channels
     ++ payload)
  = mkWavHeader (string_bytes "RIFF") (36 + dataSize)
      (string_bytes "WAVE") (string_bytes "fmt ") 16 1 channels
      (sampleRate buffer) (sampleRate buffer * (channels * 2))
      (channels * 2) 16 (string_bytes "data") dataSize.
Proof.
  intros Hne Hfits channels dataSize.
  unfold header_fits in Hfits. fold channels dataSize in Hfits.
  apply andb_prop in Hfits as [Hfits H4].
  apply andb_prop in Hfits as [Hfits H3].
  apply andb_prop in Hfits as [H1 H2].
  apply Z.leb_le in H1. apply Z.ltb_lt in H2, H3, H4.
  assert (Hch : (1 <= channels)%Z).
  { unfold channels, numberOfChannels.
    destruct (channelData buffer); [congruence | cbn [length]; lia]. }
  assert (Hsr : (sampleRate buffer < 2 ^ 32)%Z) by nia.
  assert (Hds : (0 <= dataSize)%Z) by (unfold dataSize; lia).
  rewrite read_header_layout. fold dataSize.
  rewrite !Z.mod_small by lia. reflexivity.
Qed.

(** C6: for a buffer with at least one channel, [audioBufferToWav] returns
    an [audio/wav] blob that starts with the 44-byte header of the table,
    every integer field little-endian and holding its value reduced to the
    width of the field, hence the value itself whenever the values fit
    their fields; the PCM payload follows, and for a mono buffer of F frames
    the blob is 44 + 2F bytes long. *)
Theorem audioBufferToWav_header (host : Host) (buffer : AudioBuffer) :
  channelData buffer <> [] ->
  let channels := Z.of_nat (numberOfChannels buffer) in
  let sampleCount := length (encoded_samples buffer) in
  let dataSize := (Z.of_nat sampleCount * 2)%Z in
  exists blob : Blob,
    audioBufferToWav host buffer = Ok blob
    /\ blob_type blob = "audio/wav"%string
    /\ read_header (blob_data blob)
       = mkWavHeader (string_bytes "RIFF") ((36 + dataSize) mod 2 ^ 32)
           (string_bytes "WAVE") (string_bytes "fmt ") 16 1
           (channels mod 2 ^ 16) (sampleRate buffer mod 2 ^ 32)
           ((sampleRate buffer * (channels * 2)) mod 2 ^ 32)
           ((channels * 2) mod 2 ^ 16) 16 (string_bytes "data")
           (dataSize mod 2 ^ 32)
    /\ (header_fits buffer = true ->
        read_header (blob_data blob)
        = mkWavHeader (string_bytes "RIFF") (36 + dataSize)
            (string_bytes "WAVE") (string_bytes "fmt ") 16 1 channels
            (sampleRate buffer) (sampleRate buffer * (channels * 2))
            (channels * 2) 16 (string_bytes "data") dataSize)
    /\ drop 44 (blob_data blob) = pcm_bytes (encoded_samples buffer)
    /\ length (blob_data blob) = (44 + sampleCount * 2)%nat
    /\ (numberOfChannels buffer = 1%nat ->
        length (blob_data blob) = (44 + bufferLength buffer * 2)%nat).
Proof.
  intros Hne channels sampleCount dataSize.
  eexists. split; [apply audioBufferToWav_layout; exact Hne|].
  cbn [blob_type blob_data].
  assert (Hlen : length (wav_header sampleCount (sampleRate buffer) channels
                         ++ pcm_bytes (encoded_samples buffer))
                 = (44 + sampleCount * 2)%nat).
  { rewrite length_app, length_pcm_bytes. cbn [length]. unfold sampleCount.
    rewrite (length_wav_header (length (encoded_samples buffer))
               (sampleRate buffer) channels). lia. }
  split; [reflexivity|]. split; [|split; [|split; [|split]]].
  - apply read_header_layout.
  - intros Hfits. apply read_header_table; assumption.
  - apply drop_app_length'.
    apply (length_wav_header sampleCount (sampleRate buffer) channels).
  - exact Hlen.
  - intros Hmono. etransitivity; [exact Hlen|].
    unfold sampleCount, encoded_samples.
    unfold bufferLength, numberOfChannels in *.
    destruct (channelData buffer) as [|c0 [|c1 rest]]; try discriminate.
    reflexivity.
Qed.

Lemma audioBufferToWav_header_witness :
  exists blob : Blob,
    audioBufferToWav exampleHost monoExample = Ok blob
    /\ hdr_ChunkSize (read_header (blob_data blob)) = 42%Z
    /\ length (blob_data blob) = 50%nat.
Proof.
  destruct (audioBufferToWav_header exampleHost monoExample)
    as (blob & Hblob & _ & _ & Hfits & _ & _ & Hmono).
  - discriminate.
  - exists blob. split; [exact Hblob|]. split.
    + rewrite Hfits by reflexivity. reflexivity.
    + apply Hmono. reflexivity.
Defined.

Lemma map_alternate {A B} (f : A -> B) (L R : list A) :
  map f (alternate L R) = alternate (map f L) (map f R).
Proof.
  revert R. induction L as [|l L IH]; intros [|r R]; cbn [alternate map];
    try reflexivity.
  rewrite IH. reflexivity.
Qed.

Lemma audioBufferToWav_payload (host : Host) (buffer : AudioBuffer) :
  channelData buffer <> [] ->
  exists blob : Blob,
    audioBufferToWav host buffer = Ok blob
    /\ pcm_payload (blob_data blob) = map pcm16 (encoded_samples buffer).
Proof.
  intros Hne. eexists. split; [apply audioBufferToWav_layout; exact Hne|].
  apply pcm_payload_layout.
Qed.

(** C5: every finite sample is stored as the specification says (clamp to
    [-1, 1], scale by 32767 when the clamped value is at least 0 and by 32768
    otherwise, truncate toward zero), in a mono buffer sample by sample; the
    infinities are stored as the clamped extremes and NaN as 0; and the
    stereo buffer L = [0.5, -0.5], R = [0.25, -0.25] is stored as
    16383, 8191, -16384, -8192. *)
Theorem floatTo16BitPCM_scaling (host : Host) :
  (forall (rate : Z) (samples : list Q),
      exists blob : Blob,
        audioBufferToWav host (mkAudioBuffer rate [map Fin samples]) = Ok blob
        /\ pcm_payload (blob_data blob) = map pcm16_spec samples)
  /\ (forall rate : Z,
        exists blob : Blob,
          audioBufferToWav host (mkAudioBuffer rate [[PosInf; NegInf; NaN]])
          = Ok blob
          /\ pcm_payload (blob_data blob) = [32767; -32768; 0]%Z)
  /\ (exists blob : Blob,
        audioBufferToWav host stereoExample = Ok blob
        /\ pcm_payload (blob_data blob)
           = [16383; 8191; -16384; -8192]%Z).
Proof.
  split; [|split].
  - intros rate samples.
    destruct (audioBufferToWav_payload host
                (mkAudioBuffer rate [map Fin samples]))
      as (blob & Hblob & Hpay); [discriminate|].
    exists blob. split; [exact Hblob|].
    rewrite Hpay. cbn [encoded_samples channelData].
    rewrite map_map. apply map_ext. intros q. apply pcm16_Fin.
  - intros rate.
    destruct (audioBufferToWav_payload host
                (mkAudioBuffer rate [[PosInf; NegInf; NaN]]))
      as (blob & Hblob & Hpay); [discriminate|].
    exists blob. split; [exact Hblob|].
    rewrite Hpay. reflexivity.
  - destruct (audioBufferToWav_payload host stereoExample)
      as (blob & Hblob & Hpay); [discriminate|].
    exists blob. split; [exact Hblob|].
    rewrite Hpay. vm_compute. reflexivity.
Qed.

(** C8: a two-channel buffer is stored as L0, R0, L1, R1, ...; a buffer
    with any other number of channels (at least one) is stored as its
    channel 0 alone, and the call succeeds. *)
Theorem audioBufferToWav_channels (host : Host) (buffer : AudioBuffer) :
  (forall inputL inputR : list number,
      channelData buffer = [inputL; inputR] ->
      length inputL = length inputR ->
      exists blob : Blob,
        audioBufferToWav host buffer = Ok blob
        /\ pcm_payload (blob_data blob)
           = alternate (map pcm16 inputL) (map pcm16 inputR))
  /\ (forall (channel0 : list number) (others : list (list number)),
        channelData buffer = channel0 :: others ->
        numberOfChannels buffer <> 2%nat ->
        exists blob : Blob,
          audioBufferToWav host buffer = Ok blob
          /\ pcm_payload (blob_data blob) = map pcm16 channel0).
Proof.
  split.
  - intros inputL inputR Hch Hlen.
    destruct (audioBufferToWav_payload host buffer)
      as (blob & Hblob & Hpay); [congruence|].
    exists blob. split; [exact Hblob|].
    rewrite Hpay. unfold encoded_samples. rewrite Hch.
    rewrite interleave_alternate by exact Hlen. apply map_alternate.
  - intros channel0 others Hch Hcount.
    destruct (audioBufferToWav_payload host buffer)
      as (blob & Hblob & Hpay); [congruence|].
    exists blob. split; [exact Hblob|].
    rewrite Hpay. unfold encoded_samples, numberOfChannels in *.
    rewrite Hch in *. destruct others as [|c1 [|c2 more]]; try reflexivity.
    cbn [length] in Hcount. congruence.
Qed.

Lemma audioBufferToWav_channels_witness :
  (exists blob : Blob,
      audioBufferToWav exampleHost stereoExample = Ok blob
      /\ pcm_payload (blob_data blob) = [16383; 8191; -16384; -8192]%Z)
  /\ (exists blob : Blob,
        audioBufferToWav exampleHost threeChannelExample = Ok blob
        /\ pcm_payload (blob_data blob) = [16383]%Z).
Proof.
  split.
  - apply (proj1 (audioBufferToWav_channels exampleHost stereoExample)
             [Fin (1 # 2); Fin (-1 # 2)] [Fin (1 # 4); Fin (-1 # 4)]);
      reflexivity.
  - apply (proj2 (audioBufferToWav_channels exampleHost threeChannelExample)
             [Fin (1 # 2)] [[Fin (1 # 4)]; [Fin (1 # 8)]]).
    + reflexivity.
    + cbn. lia.
Defined.

(** ** PCM decoding *)

Lemma int16_elements_length (data : list byte) :
  length (int16_elements data) = (length data / 2)%nat.
Proof.
  induction data as [[|lo [|hi data]] IH] using (induction_ltof1 _ length);
    unfold ltof in IH; try reflexivity.
  cbn [int16_elements length]. rewrite IH by (cbn [length]; lia).
  change (S (S (length data))) with (1 * 2 + length data)%nat.
  rewrite Nat.div_add_l by lia. reflexivity.
Qed.

(** Element [j] of the view is the little-endian reading of bytes [2j] and
    [2j + 1]. *)
Lemma int16_elements_lookup (data : list byte) (j : nat) :
  (j < length data / 2)%nat ->
  exists lo hi : byte,
    data !! (2 * j)%nat = Some lo
    /\ data !! (2 * j + 1)%nat = Some hi
    /\ int16_elements data !! j = Some (to_signed16 (le_combine [lo; hi])).
Proof.
  revert j.
  induction data as [[|lo [|hi data]] IH] using (induction_ltof1 _ length);
    unfold ltof in IH; intros j Hj; cbn [length] in Hj.
  - cbn in Hj. lia.
  - cbn in Hj. lia.
  - change (S (S (length data))) with (1 * 2 + length data)%nat in Hj.
    rewrite Nat.div_add_l in Hj by lia.
    destruct j as [|j].
    + exists lo, hi. repeat split; reflexivity.
    + destruct (IH data) with (j := j) as (lo' & hi' & Hlo & Hhi & Hv);
        [cbn [length]; lia | lia |].
      exists lo', hi'.
      replace (2 * S j)%nat with (S (S (2 * j))) by lia.
      replace (S (S (2 * j)) + 1)%nat with (S (S (2 * j + 1))) by lia.
      repeat split; assumption.
Qed.

Lemma int16_elements_range (data : list byte) (j : nat) (k : Z) :
  int16_elements data !! j = Some k -> (-32768 <= k <= 32767)%Z.
Proof.
  intros Hk.
  assert (Hj : (j < length data / 2)%nat).
  { rewrite <- int16_elements_length. eapply lookup_lt_Some. exact Hk. }
  destruct (int16_elements_lookup data j Hj) as (lo & hi & _ & _ & Hv).
  rewrite Hv in Hk. injection Hk as <-. apply to_signed16_range.
Qed.

Lemma Zpos_of_nat_S (c : nat) : Z.pos (Pos.of_nat (S c)) = Z.of_nat (S c).
Proof. rewrite <- Pos.of_nat_succ, Zpos_P_of_succ_nat. lia. Qed.

Lemma to_length_js_div (n c : nat) :
  (1 <= c)%nat -> to_length (js_div n c) = (n / c)%nat.
Proof.
  intros Hc. destruct c as [|c]; [lia|].
  unfold js_div, to_length, Qtruncate. cbn [Qnum Qden].
  rewrite Z.quot_div_nonneg by lia.
  rewrite Zpos_of_nat_S, <- Nat2Z.inj_div. apply Nat2Z.id.
Qed.

Lemma loop_count_js_div (n c : nat) :
  (1 <= c)%nat -> (n / c <= loop_count (js_div n c))%nat.
Proof.
  intros Hc. destruct c as [|c]; [lia|].
  unfold js_div, loop_count, Qceiling, Qfloor, Qopp. cbn [Qnum Qden].
  rewrite Zpos_of_nat_S.
  apply Nat2Z.inj_le. rewrite Nat2Z.inj_div.
  assert (Hpos : (0 < Z.of_nat (S c))%Z) by lia.
  revert Hpos. generalize (Z.of_nat (S c)) (Z.of_nat n). intros d m Hd.
  assert (m / d <= - (- m / d))%Z by (Z.div_mod_to_equations; nia).
  lia.
Qed.

(** A loop that stores [g i] at index [i], for [i] from 0 to [m - 1], into
    an array of [F] cells: the stores beyond the array are ignored. *)
Lemma fill_loop {A} (g : nat -> A) (m : nat) (cells : list A) :
  foldl (fun cells i => ta_set cells i (g i)) cells (seq 0 m)
  = map g (seq 0 (m `min` length cells))
    ++ drop (m `min` length cells) cells.
Proof.
  induction m as [|m IH]; [reflexivity|].
  rewrite seq_S, foldl_app, IH. cbn [foldl Nat.add]. unfold ta_set.
  destruct (Nat.lt_ge_cases m (length cells)) as [Hlt|Hge].
  - replace (m `min` length cells)%nat with m by lia.
    replace (S m `min` length cells)%nat with (S m) by lia.
    destruct (lookup_lt_is_Some_2 cells m Hlt) as [x Hx].
    rewrite (drop_S cells x m Hx).
    rewrite insert_app_r_alt by (rewrite length_map, length_seq; lia).
    rewrite length_map, length_seq, Nat.sub_diag. cbn [insert list_insert].
    rewrite seq_S, map_app. cbn [map Nat.add].
    rewrite <- app_assoc. reflexivity.
  - replace (m `min` length cells)%nat with (length cells) by lia.
    replace (S m `min` length cells)%nat with (length cells) by lia.
    apply list_insert_ge.
    rewrite length_app, length_map, length_seq, length_drop. lia.
Qed.

Lemma decode_channel_silence (dataInt16 : list Z)
  (numChannels frames channel : nat) (frameCount : number) :
  (frames <= loop_count frameCount)%nat ->
  decode_channel dataInt16 numChannels frameCount channel
    (replicate frames (Fin 0))
  = decoded_channel dataInt16 numChannels frames channel.
Proof.
  intros Hle. unfold decode_channel, decoded_channel.
  rewrite (fill_loop
             (fun i => int16_to_float
                         (dataInt16 !! (i * numChannels + channel)%nat))).
  rewrite length_replicate.
  replace (loop_count frameCount `min` frames)%nat with frames by lia.
  rewrite drop_ge by (rewrite length_replicate; lia).
  apply app_nil_r.
Qed.

Lemma decode_channels_loop (dataInt16 : list Z) (numChannels frames : nat)
  (frameCount : number) (rate : Z) :
  (frames <= loop_count frameCount)%nat ->
  forall (k c : nat) (done : list (list number)),
    length done = c ->
    for_each (seq c k)
      (mkAudioBuffer rate (done ++ replicate k (replicate frames (Fin 0))))
      (fun buffer channel =>
         let* channelData := getChannelData buffer channel in
         Ok (storeChannel buffer channel
               (decode_channel dataInt16 numChannels frameCount channel
                  channelData)))
    = Ok (mkAudioBuffer rate
            (done ++ map (decoded_channel dataInt16 numChannels frames)
                       (seq c k))).
Proof.
  intros Hle. induction k as [|k IH]; intros c done Hdone.
  - reflexivity.
  - cbn [seq for_each replicate map]. unfold getChannelData.
    cbn [channelData].
    rewrite lookup_app_r by lia.
    replace (c - length done)%nat with 0%nat by lia.
    cbn [lookup list_lookup bind]. unfold storeChannel.
    cbn [channelData sampleRate].
    rewrite insert_app_r_alt by lia.
    replace (c - length done)%nat with 0%nat by lia.
    cbn [insert list_insert].
    rewrite decode_channel_silence by exact Hle.
    rewrite (cons_middle _ done), app_assoc.
    rewrite IH by (rewrite length_app; cbn [length]; lia).
    rewrite <- app_assoc. reflexivity.
Qed.

(** The bytes after the last whole element hold no element. *)
Lemma int16_elements_whole (data : list byte) :
  int16_elements (take (2 * (length data / 2)) data) = int16_elements data.
Proof.
  induction data as [[|lo [|hi data]] IH] using (induction_ltof1 _ length);
    unfold ltof in IH; try reflexivity.
  cbn [length].
  change (S (S (length data))) with (1 * 2 + length data)%nat.
  rewrite Nat.div_add_l by lia.
  replace (2 * (1 + length data / 2))%nat
    with (S (S (2 * (length data / 2)))) by lia.
  cbn [take int16_elements]. rewrite IH by (cbn [length]; lia).
  reflexivity.
Qed.

(** The view [decodeAudioData] takes of its argument: the 16-bit elements of
    the array's own bytes, or a [RangeError] when the array starts at an odd
    offset of its buffer. *)
Lemma Int16Array_view (data : Uint8Array) :
  Int16Array (ua_buffer data) (byteOffset data) (js_div (byteLength data) 2)
  = if Nat.even (byteOffset data)
    then Ok (int16_elements (ua_bytes data))
    else Err RangeError.
Proof.
  unfold Int16Array. rewrite to_length_js_div by lia.
  destruct (Nat.even (byteOffset data)); [|reflexivity]. cbn [negb].
  unfold ua_buffer, byteOffset, byteLength.
  pose proof (Nat.Div0.mul_div_le (length (ua_bytes data)) 2) as Hle.
  destruct (Nat.leb_spec
              (length (ua_before data) + 2 * (length (ua_bytes data) / 2))
              (length (ua_before data ++ ua_bytes data ++ ua_after data)))
    as [_|Hlt]; [|rewrite !length_app in Hlt; lia].
  rewrite drop_app_length, take_app_le by lia.
  rewrite int16_elements_whole. reflexivity.
Qed.

(** What [decodeAudioData] computes, in closed form. *)
Lemma decodeAudioData_closed (host : Host) (data : Uint8Array) (rate : Z)
  (numChannels : nat) :
  (1 <= numChannels)%nat ->
  Nat.even (byteOffset data) = true ->
  let frames := (byteLength data / 2 / numChannels)%nat in
  decodeAudioData host data rate numChannels
  = if bufferAllowed host numChannels frames rate
    then Ok (mkAudioBuffer rate
               (map (decoded_channel (int16_elements (ua_bytes data))
                       numChannels frames)
                  (seq 0 numChannels)))
    else Err AllocationError.
Proof.
  intros Hc Heven frames. unfold decodeAudioData.
  rewrite Int16Array_view, Heven. cbn [bind]. unfold createBuffer.
  rewrite to_length_js_div by exact Hc.
  rewrite int16_elements_length. fold (byteLength data). fold frames.
  destruct (bufferAllowed host numChannels frames rate); [|reflexivity].
  cbn [bind].
  apply (decode_channels_loop (int16_elements (ua_bytes data)) numChannels
           frames (js_div (byteLength data / 2) numChannels) rate
           (loop_count_js_div (byteLength data / 2) numChannels Hc)
           numChannels 0 []) .
  reflexivity.
Qed.

(** An array at an odd offset of its buffer cannot be viewed as 16-bit
    elements. *)
Lemma decodeAudioData_misaligned (host : Host) (data : Uint8Array) (rate : Z)
  (numChannels : nat) :
  Nat.even (byteOffset data) = false ->
  decodeAudioData host data rate numChannels = Err RangeError.
Proof.
  intros Hodd. unfold decodeAudioData.
  rewrite Int16Array_view, Hodd. reflexivity.
Qed.

Lemma lookup_map_seq {A} (g : nat -> A) (n i : nat) :
  (i < n)%nat -> map g (seq 0 n) !! i = Some (g i).
Proof.
  intros Hi. change (map g (seq 0 n)) with (g <$> seq 0 n).
  rewrite list_lookup_fmap, lookup_seq_lt by exact Hi. reflexivity.
Qed.

Lemma frame_index_bound (n numChannels i channel : nat) :
  (channel < numChannels)%nat -> (i < n / numChannels)%nat ->
  (i * numChannels + channel < n)%nat.
Proof.
  intros Hc Hi.
  pose proof (Nat.Div0.mul_div_le n numChannels) as Hle.
  nia.
Qed.

Lemma int16_sample_range (k : Z) :
  (-32768 <= k <= 32767)%Z -> (-1 <= k # 32768 <= 32767 # 32768)%Q.
Proof. intros Hk. unfold Qle. cbn [Qnum Qden]. lia. Qed.

(** C7, as the code has it: for an array at an even offset of its buffer,
    at least one channel, and arguments for which the platform allocates the
    buffer, [decodeAudioData] returns a buffer of [numChannels] channels and
    floor(byteLength / 2 / numChannels) frames at the given rate (whatever
    bytes remain after the last whole frame are ignored); the sample of
    channel [c] at frame [i] is the little-endian signed 16-bit value at
    index [i * numChannels + c] of the byte stream divided by 32768, which
    lies between -1 and 32767/32768.  An array at an odd offset fails with a
    [RangeError], and arguments the platform refuses fail with its
    exception. *)
Theorem decodeAudioData_samples (host : Host) (data : Uint8Array) (rate : Z)
  (numChannels : nat) :
  (1 <= numChannels)%nat ->
  let frames := (byteLength data / 2 / numChannels)%nat in
  (Nat.even (byteOffset data) = false ->
   decodeAudioData host data rate numChannels = Err RangeError)
  /\ (Nat.even (byteOffset data) = true ->
      bufferAllowed host numChannels frames rate = false ->
      decodeAudioData host data rate numChannels = Err AllocationError)
  /\ (Nat.even (byteOffset data) = true ->
      bufferAllowed host numChannels frames rate = true ->
      exists buffer : AudioBuffer,
        decodeAudioData host data rate numChannels = Ok buffer
        /\ sampleRate buffer = rate
        /\ numberOfChannels buffer = numChannels
        /\ forall c : nat, (c < numChannels)%nat ->
           exists samples : list number,
             channelData buffer !! c = Some samples
             /\ length samples = frames
             /\ forall i : nat, (i < frames)%nat ->
                exists lo hi : byte,
                  ua_bytes data !! (2 * (i * numChannels + c))%nat = Some lo
                  /\ ua_bytes data !! (2 * (i * numChannels + c) + 1)%nat
                     = Some hi
                  /\ let k := to_signed16 (le_combine [lo; hi]) in
                     samples !! i = Some (Fin (k # 32768))
                     /\ (-1 <= k # 32768 <= 32767 # 32768)%Q).
Proof.
  intros Hc frames.
  split; [apply decodeAudioData_misaligned|].
  split.
  { intros Heven Hrefused.
    rewrite decodeAudioData_closed by assumption. fold frames.
    rewrite Hrefused. reflexivity. }
  intros Heven Hallowed.
  eexists. split.
  { rewrite decodeAudioData_closed by assumption. fold frames.
    rewrite Hallowed. reflexivity. }
  cbn [sampleRate]. unfold numberOfChannels. cbn [channelData].
  split; [reflexivity|]. split; [rewrite length_map; apply length_seq|].
  intros c Hlt. eexists. split; [apply lookup_map_seq; exact Hlt|].
  unfold decoded_channel. split; [rewrite length_map; apply length_seq|].
  intros i Hi.
  assert (Hidx : (i * numChannels + c < length (ua_bytes data) / 2)%nat)
    by (apply frame_index_bound; assumption).
  destruct (int16_elements_lookup (ua_bytes data) _ Hidx)
    as (lo & hi & Hlo & Hhi & Hv).
  exists lo, hi. split; [exact Hlo|]. split; [exact Hhi|].
  cbv zeta. split.
  - rewrite lookup_map_seq by exact Hi. rewrite Hv. reflexivity.
  - apply int16_sample_range, to_signed16_range.
Qed.

Lemma decodeAudioData_samples_witness :
  decodeAudioData exampleHost
    (mkUint8Array [Byte.x00] extremesExample [Byte.x00]) 24000 1
  = Err RangeError
  /\ decodeAudioData exampleHost (freshArray extremesExample) 999 1
     = Err AllocationError
  /\ exists buffer : AudioBuffer,
       decodeAudioData exampleHost
         (mkUint8Array [Byte.x00; Byte.x00] (extremesExample ++ [Byte.x01]) [])
         24000 1
       = Ok buffer
       /\ numberOfChannels buffer = 1%nat.
Proof.
  split; [|split].
  - apply (proj1 (decodeAudioData_samples exampleHost
                    (mkUint8Array [Byte.x00] extremesExample [Byte.x00])
                    24000 1 ltac:(lia))).
    reflexivity.
  - apply (proj1 (proj2 (decodeAudioData_samples exampleHost
                           (freshArray extremesExample) 999 1 ltac:(lia))));
      reflexivity.
  - destruct (proj2 (proj2 (decodeAudioData_samples exampleHost
                (mkUint8Array [Byte.x00; Byte.x00]
                   (extremesExample ++ [Byte.x01]) [])
                24000 1 ltac:(lia))))
      as (buffer & Hbuffer & _ & Hcount & _).
    + reflexivity.
    + reflexivity.
    + exists buffer. split; [exact Hbuffer | exact Hcount].
Defined.

(** The claim C7 fails as stated: an array that holds a single byte, a
    partial sample, is not decoded to a buffer of no frames; the call fails,
    because the platform allocates no buffer without frames.  So does the
    call on the four bytes of [extremesExample] when they sit at offset 1 of
    their buffer. *)
Lemma partial_frame_refused :
  decodeAudioData exampleHost (freshArray [Byte.x01]) 24000 1
  = Err AllocationError
  /\ (forall buffer : AudioBuffer,
        decodeAudioData exampleHost (freshArray [Byte.x01]) 24000 1
        <> Ok buffer)
  /\ decodeAudioData exampleHost
       (mkUint8Array [Byte.x00] extremesExample []) 24000 1
     = Err RangeError.
Proof.
  split; [reflexivity|]. split; [|reflexivity].
  intros buffer H. discriminate H.
Qed.

(** ** Decoding followed by encoding *)

(** A decoded sample k / 32768 is stored as k when k <= 0 and as k - 1 when
    k > 0: the encoder scales positive samples by 32767, not 32768. *)
Lemma pcm16_of_int16 (k : Z) :
  (-32768 <= k <= 32767)%Z ->
  pcm16 (Fin (k # 32768)) = if (k <=? 0)%Z then k else (k - 1)%Z.
Proof.
  intros Hk. rewrite pcm16_Fin. unfold pcm16_spec, Qclamp.
  assert (Hmin : Qmin 1 (k # 32768) = (k # 32768)).
  { unfold Qmin, GenericMinMax.gmin, Qcompare. cbn [Qnum Qden].
    destruct (Z.compare_spec (1 * 32768) (k * 1)); [lia | lia | reflexivity]. }
  rewrite Hmin.
  unfold Qmax, GenericMinMax.gmax, Qcompare. cbn [Qnum Qden].
  destruct (Z.compare_spec (-1 * 32768) (k * 1)) as [Heq|Hlt|Hgt]; [| |lia].
  - assert (k = (-32768)%Z) as -> by lia. reflexivity.
  - unfold Qle_bool, Qtruncate. cbn [Qnum Qden Qmult].
    destruct (Z.leb_spec k 0) as [Hle|Hpos].
    + destruct (Z.eq_dec k 0%Z) as [->|Hne]; [reflexivity|].
      destruct (Z.leb_spec (0 * 32768) (k * 1)); [lia|].
      change (Z.pos (32768 * 1)) with 32768%Z. apply Z.quot_mul. lia.
    + destruct (Z.leb_spec (0 * 32768) (k * 1)); [|lia].
      change (Z.pos (32768 * 1)) with 32768%Z.
      rewrite Z.quot_div_nonneg by lia.
      symmetry. apply Z.div_unique with (r := (32768 - k)%Z); lia.
Qed.

Lemma alternate_lookup {A} (L R : list A) (i : nat) :
  length L = length R ->
  alternate L R !! (i * 2)%nat = L !! i
  /\ alternate L R !! (i * 2 + 1)%nat = R !! i.
Proof.
  revert R i. induction L as [|l L IH]; intros [|r R] i Hlen;
    try discriminate.
  - split; reflexivity.
  - destruct i as [|i]; [split; reflexivity|].
    cbn [alternate Nat.mul Nat.add lookup list_lookup].
    apply IH. cbn [length] in Hlen. lia.
Qed.

Lemma encoded_samples_lookup (buffer : AudioBuffer) (frames c i : nat) :
  Forall (fun d => length d = frames) (channelData buffer) ->
  (c < storedChannels (numberOfChannels buffer))%nat ->
  encoded_samples buffer
    !! (i * storedChannels (numberOfChannels buffer) + c)%nat
  = channelData buffer !! c ≫= (.!! i).
Proof.
  unfold encoded_samples, storedChannels, numberOfChannels.
  intros Hall Hc.
  destruct (channelData buffer) as [|c0 [|c1 [|c2 more]]];
    cbn [length Nat.eqb] in *.
  - rewrite !lookup_nil. reflexivity.
  - assert (c = 0%nat) as -> by lia.
    rewrite Nat.mul_1_r, Nat.add_0_r. reflexivity.
  - assert (HLR : length c0 = length c1).
    { inversion Hall as [|? ? Hc0 Hall']. inversion Hall' as [|? ? Hc1 ?].
      congruence. }
    rewrite interleave_alternate by exact HLR.
    destruct (alternate_lookup c0 c1 i HLR) as [Hl Hr].
    destruct c as [|[|c]]; [| |lia].
    + rewrite Nat.add_0_r. exact Hl.
    + exact Hr.
  - assert (c = 0%nat) as -> by lia.
    rewrite Nat.mul_1_r, Nat.add_0_r. reflexivity.
Qed.

Lemma encoded_samples_length (buffer : AudioBuffer) (frames : nat) :
  Forall (fun d => length d = frames) (channelData buffer) ->
  channelData buffer <> [] ->
  length (encoded_samples buffer)
  = (storedChannels (numberOfChannels buffer) * frames)%nat.
Proof.
  unfold encoded_samples, storedChannels, numberOfChannels.
  intros Hall Hne.
  destruct (channelData buffer) as [|c0 [|c1 [|c2 more]]];
    cbn [length Nat.eqb]; [congruence| | |].
  - inversion Hall. lia.
  - rewrite interleave_length.
    inversion Hall as [|? ? Hc0 Hall']. inversion Hall' as [|? ? Hc1 ?]. lia.
  - inversion Hall. lia.
Qed.

Lemma quantization_step (k : Z) :
  (Qabs (((if (k <=? 0)%Z then k else (k - 1)%Z) # 32768) - (k # 32768))
   <= 1 # 32768)%Q.
Proof.
  apply Qabs_Qle_condition.
  unfold Qle, Qminus, Qplus, Qopp. cbn [Qnum Qden].
  destruct (k <=? 0)%Z; lia.
Qed.

Lemma decoded_channels_shape (dataInt16 : list Z) (numChannels frames : nat) :
  Forall (fun d => length d = frames)
    (map (decoded_channel dataInt16 numChannels frames) (seq 0 numChannels)).
Proof.
  apply Forall_forall. intros d Hd. apply list_elem_of_In in Hd.
  apply in_map_iff in Hd as (c & <- & _).
  unfold decoded_channel. rewrite length_map. apply length_seq.
Qed.

(** C2, as the code has it: for an array at an even offset of its buffer
    that holds N whole frames of C channels, which the platform allocates and
    whose header values fit their fields, decoding and then encoding gives
    the header of the table, and every sample the data chunk holds (all of
    them for one or two channels, those of channel 0 otherwise), read back
    and divided by 32768, differs from the decoded sample by at most
    1/32768. *)
Theorem decode_encode_roundtrip (host : Host) (data : Uint8Array) (rate : Z)
  (numChannels frames : nat) :
  (1 <= numChannels)%nat ->
  Nat.even (byteOffset data) = true ->
  byteLength data = (2 * numChannels * frames)%nat ->
  bufferAllowed host numChannels frames rate = true ->
  let channels := Z.of_nat numChannels in
  let dataSize := (Z.of_nat (storedChannels numChannels * frames) * 2)%Z in
  (0 <= rate)%Z -> (rate * (channels * 2) < 2 ^ 32)%Z ->
  (channels * 2 < 2 ^ 16)%Z -> (36 + dataSize < 2 ^ 32)%Z ->
  exists (buffer : AudioBuffer) (blob : Blob),
    decodeAudioData host data rate numChannels = Ok buffer
    /\ audioBufferToWav host buffer = Ok blob
    /\ read_header (blob_data blob)
       = mkWavHeader (string_bytes "RIFF") (36 + dataSize)
           (string_bytes "WAVE") (string_bytes "fmt ") 16 1 channels
           rate (rate * (channels * 2)) (channels * 2) 16
           (string_bytes "data") dataSize
    /\ forall c i : nat,
         (c < storedChannels numChannels)%nat -> (i < frames)%nat ->
         exists (q : Q) (k : Z),
           channelData buffer !! c ≫= (.!! i) = Some (Fin q)
           /\ pcm_payload (blob_data blob)
                !! (i * storedChannels numChannels + c)%nat = Some k
           /\ (Qabs ((k # 32768) - q) <= 1 # 32768)%Q.
Proof.
  intros Hc Heven Hlen Hallowed channels dataSize Hrate Hbyte Hblock Hsize.
  assert (Hframes : (byteLength data / 2 / numChannels)%nat = frames).
  { rewrite Hlen.
    replace (2 * numChannels * frames)%nat
      with (numChannels * frames * 2)%nat by lia.
    rewrite Nat.div_mul by lia.
    rewrite Nat.mul_comm. apply Nat.div_mul. lia. }
  pose proof (decodeAudioData_closed host data rate numChannels Hc Heven)
    as Hdec.
  cbv zeta in Hdec. rewrite Hframes, Hallowed in Hdec.
  set (buffer := mkAudioBuffer rate
                   (map (decoded_channel (int16_elements (ua_bytes data))
                           numChannels frames)
                      (seq 0 numChannels))) in *.
  assert (Hcount : numberOfChannels buffer = numChannels).
  { unfold numberOfChannels, buffer. cbn [channelData].
    rewrite length_map. apply length_seq. }
  assert (Hne : channelData buffer <> []).
  { intros Hnil. unfold numberOfChannels in Hcount. rewrite Hnil in Hcount.
    cbn [length] in Hcount. lia. }
  pose proof (decoded_channels_shape (int16_elements (ua_bytes data))
                numChannels frames) as Hshape.
  change (Forall (fun d => length d = frames) (channelData buffer)) in Hshape.
  pose proof (encoded_samples_length buffer frames Hshape Hne) as Henc.
  rewrite Hcount in Henc.
  exists buffer. eexists.
  split; [exact Hdec|].
  split; [apply audioBufferToWav_layout; exact Hne|].
  cbn [blob_data]. split.
  - pose proof (read_header_table buffer
                  (pcm_bytes (encoded_samples buffer)) Hne) as Htable.
    cbv zeta in Htable. rewrite Hcount, Henc in Htable.
    rewrite Hcount, Henc.
    apply Htable. unfold header_fits. rewrite Hcount, Henc.
    fold channels dataSize.
    apply andb_true_intro; split; [|apply Z.ltb_lt; exact Hsize].
    apply andb_true_intro; split; [|apply Z.ltb_lt; exact Hblock].
    apply andb_true_intro; split;
      [apply Z.leb_le; exact Hrate | apply Z.ltb_lt; exact Hbyte].
  - intros c i Hcs Hi.
    assert (Hcn : (c < numChannels)%nat).
    { unfold storedChannels in Hcs.
      destruct (Nat.eqb_spec numChannels 2); lia. }
    assert (Hidx : (i * numChannels + c < length (ua_bytes data) / 2)%nat).
    { apply frame_index_bound; [exact Hcn | ].
      fold (byteLength data). rewrite Hframes. exact Hi. }
    destruct (int16_elements_lookup (ua_bytes data) _ Hidx)
      as (lo & hi & _ & _ & Hv).
    set (k0 := to_signed16 (le_combine [lo; hi])) in *.
    assert (Hsample : channelData buffer !! c ≫= (.!! i)
                      = Some (Fin (k0 # 32768))).
    { unfold buffer. cbn [channelData].
      rewrite lookup_map_seq by exact Hcn. cbn [mbind option_bind].
      unfold decoded_channel. rewrite lookup_map_seq by exact Hi.
      rewrite Hv. reflexivity. }
    exists (k0 # 32768), (if (k0 <=? 0)%Z then k0 else (k0 - 1)%Z).
    split; [exact Hsample|]. split; [|apply quantization_step].
    rewrite (pcm_payload_layout _ _ _ (encoded_samples buffer)).
    change (map pcm16 (encoded_samples buffer))
      with (pcm16 <$> encoded_samples buffer).
    rewrite list_lookup_fmap. rewrite <- Hcount at 1.
    rewrite (encoded_samples_lookup buffer frames c i Hshape)
      by (rewrite Hcount; exact Hcs).
    rewrite Hsample. cbn [fmap option_fmap option_map]. f_equal.
    apply pcm16_of_int16, to_signed16_range.
Qed.

Lemma decode_encode_roundtrip_witness :
  exists (buffer : AudioBuffer) (blob : Blob),
    decodeAudioData exampleHost
      (mkUint8Array [Byte.x00; Byte.x00] extremesExample [Byte.x00]) 24000 2
    = Ok buffer
    /\ audioBufferToWav exampleHost buffer = Ok blob.
Proof.
  destruct (decode_encode_roundtrip exampleHost
              (mkUint8Array [Byte.x00; Byte.x00] extremesExample [Byte.x00])
              24000 2 1)
    as (buffer & blob & Hbuffer & Hblob & _).
  - lia.
  - reflexivity.
  - reflexivity.
  - reflexivity.
  - lia.
  - reflexivity.
  - reflexivity.
  - reflexivity.
  - exists buffer, blob. split; [exact Hbuffer | exact Hblob].
Defined.

(** The strict bound of the specification fails at the smallest positive
    sample: 1/32768 is stored as 0. *)
Lemma roundtrip_not_strict :
  exists (buffer : AudioBuffer) (blob : Blob),
    decodeAudioData exampleHost (freshArray oneStepExample) 24000 1
    = Ok buffer
    /\ audioBufferToWav exampleHost buffer = Ok blob
    /\ channelData buffer = [[Fin (1 # 32768)]]
    /\ pcm_payload (blob_data blob) = [0%Z]
    /\ ~ (Qabs ((0 # 32768) - (1 # 32768)) < 1 # 32768)%Q.
Proof.
  eexists. eexists.
  split; [vm_compute; reflexivity|].
  split; [vm_compute; reflexivity|].
  split; [reflexivity|]. split; [reflexivity|].
  intros H. vm_compute in H. discriminate H.
Qed.

(** C3, as the code has it: the bytes 00 80 FF 7F at 24000 Hz, one channel,
    decode to the two samples -32768/32768 = -1 and 32767/32768 (about
    0.99997); encoding that buffer stores -32768 for the first and 32766 for
    the second. *)
Theorem extremes_roundtrip (host : Host) :
  bufferAllowed host 1 2 24000 = true ->
  exists (buffer : AudioBuffer) (blob : Blob),
    decodeAudioData host (freshArray extremesExample) 24000 1 = Ok buffer
    /\ sampleRate buffer = 24000%Z
    /\ channelData buffer = [[Fin (-32768 # 32768); Fin (32767 # 32768)]]
    /\ (-32768 # 32768 == -1)%Q
    /\ (99996 # 100000 < 32767 # 32768 < 99998 # 100000)%Q
    /\ audioBufferToWav host buffer = Ok blob
    /\ pcm_payload (blob_data blob) = [-32768; 32766]%Z.
Proof.
  intros Hallowed.
  pose proof (decodeAudioData_closed host (freshArray extremesExample)
                24000 1 ltac:(lia) eq_refl) as Hdec.
  cbv zeta in Hdec.
  change (byteLength (freshArray extremesExample) / 2 / 1)%nat
    with 2%nat in Hdec.
  rewrite Hallowed in Hdec.
  destruct (audioBufferToWav_payload host
              (mkAudioBuffer 24000
                 [[Fin (-32768 # 32768); Fin (32767 # 32768)]]))
    as (blob & Hblob & Hpay); [discriminate|].
  eexists. exists blob.
  split; [exact Hdec|].
  split; [reflexivity|]. split; [reflexivity|]. split; [reflexivity|].
  split; [split; reflexivity|].
  split; [exact Hblob|].
  rewrite Hpay. reflexivity.
Qed.

Lemma extremes_roundtrip_witness :
  exists (buffer : AudioBuffer) (blob : Blob),
    decodeAudioData exampleHost (freshArray extremesExample) 24000 1
    = Ok buffer
    /\ audioBufferToWav exampleHost buffer = Ok blob
    /\ pcm_payload (blob_data blob) = [-32768; 32766]%Z.
Proof.
  destruct (extremes_roundtrip exampleHost)
    as (buffer & blob & Hbuffer & _ & _ & _ & _ & Hblob & Hpay).
  - reflexivity.
  - exists buffer, blob. repeat split; assumption.
Defined.

(** The positive extreme is not reproduced: 32767 comes back as 32766. *)
Lemma extremes_drift :
  exists (buffer : AudioBuffer) (blob : Blob),
    decodeAudioData exampleHost (freshArray extremesExample) 24000 1
    = Ok buffer
    /\ audioBufferToWav exampleHost buffer = Ok blob
    /\ pcm_payload (blob_data blob) <> [-32768; 32767]%Z.
Proof.
  eexists. eexists.
  split; [vm_compute; reflexivity|].
  split; [vm_compute; reflexivity|].
  vm_compute. discriminate.
Qed.

(** [decodeAudioData] fails only in the view it takes of its argument and
    where [createBuffer] does. *)
Lemma decodeAudioData_errors (host : Host) (data : Uint8Array) (rate : Z)
  (numChannels : nat) (e : error) :
  decodeAudioData host data rate numChannels = Err e ->
  e = if Nat.even (byteOffset data) then AllocationError else RangeError.
Proof.
  destruct (Nat.even (byteOffset data)) eqn:Heven.
  - destruct numChannels as [|n].
    + unfold decodeAudioData. rewrite Int16Array_view, Heven.
      cbn [bind]. unfold createBuffer.
      destruct (bufferAllowed host 0 _ rate); cbn [bind seq for_each];
        congruence.
    + rewrite decodeAudioData_closed by (lia || exact Heven). cbv zeta.
      destruct (bufferAllowed host (S n) _ rate); congruence.
  - rewrite decodeAudioData_misaligned by exact Heven. congruence.
Qed.




(** ** The format probe *)

Lemma find_mime_None (formats : list AudioFormat) (m : string) :
  find (fun f => String.eqb (mimeType f) m) formats = None
  <-> ~ In m (map mimeType formats).
Proof.
  induction formats as [|f formats IH]; cbn [find map In]; [tauto|].
  destruct (String.eqb_spec (mimeType f) m) as [Heq|Hne].
  - split; [discriminate | intros H; exfalso; apply H; left; exact Heq].
  - rewrite IH. tauto.
Qed.

(** One round of the probe keeps what is there, in place, and keeps the MIME
    identifiers distinct: a candidate whose identifier is already listed
    changes nothing. *)
Lemma probe_step (isTypeSupported : string -> bool)
  (formats : list AudioFormat) (c : Candidate) :
  NoDup (map mimeType formats) ->
  (exists added : list AudioFormat,
      probe isTypeSupported formats c = formats ++ added)
  /\ NoDup (map mimeType (probe isTypeSupported formats c))
  /\ (In (c_mime c) (map mimeType formats) ->
      probe isTypeSupported formats c = formats).
Proof.
  intros Hnd. unfold probe.
  destruct (isTypeSupported (c_mime c));
    [|split; [exists []; symmetry; apply app_nil_r | split; trivial]].
  destruct (find _ formats) eqn:Hfind.
  - split; [exists []; symmetry; apply app_nil_r | split; trivial].
  - apply find_mime_None in Hfind.
    split; [eexists; reflexivity|]. split; [|tauto].
    rewrite map_app. cbn [map mimeType].
    apply NoDup_app. repeat split.
    + exact Hnd.
    + intros m Hm Hm'. apply list_elem_of_In in Hm.
      apply list_elem_of_singleton in Hm'. subst m. contradiction.
    + apply NoDup_singleton.
Qed.

Lemma probe_all (isTypeSupported : string -> bool)
  (cands : list Candidate) :
  forall formats : list AudioFormat,
    NoDup (map mimeType formats) ->
    (exists added : list AudioFormat,
        foldl (probe isTypeSupported) formats cands = formats ++ added)
    /\ NoDup (map mimeType (foldl (probe isTypeSupported) formats cands)).
Proof.
  induction cands as [|c cands IH]; intros formats Hnd; cbn [foldl].
  - split; [exists []; symmetry; apply app_nil_r | exact Hnd].
  - destruct (probe_step isTypeSupported formats c Hnd)
      as ((added & Hadded) & Hnd' & _).
    destruct (IH _ Hnd') as ((added' & Hadded') & Hnd'').
    split; [|exact Hnd''].
    exists (added ++ added'). rewrite Hadded', Hadded, app_assoc.
    reflexivity.
Qed.

(** C9: the result starts with the WAV descriptor; the candidates the
    platform can record follow in the order MP4, WebM with Opus, WebM, Ogg;
    no MIME identifier occurs twice (a round of the probe on an identifier
    already listed changes nothing); and the result is determined by the
    platform's capability, so two calls agree. *)
Theorem getSupportedFormats_order (host : Host) :
  getSupportedFormats host
  = wavFormat
    :: map formatOf
         (List.filter (fun c => capability host (c_mime c)) candidates)
  /\ NoDup (map mimeType (getSupportedFormats host))
  /\ (forall (isTypeSupported : string -> bool) (formats : list AudioFormat)
        (c : Candidate),
        In (c_mime c) (map mimeType formats) ->
        probe isTypeSupported formats c = formats)
  /\ (forall host' : Host,
        mediaRecorder host' = mediaRecorder host ->
        getSupportedFormats host' = getSupportedFormats host).
Proof.
  split; [|split; [|split]].
  - unfold getSupportedFormats, capability.
    destruct (mediaRecorder host) as [isTypeSupported|]; [|reflexivity].
    unfold candidates, probe. cbn [foldl List.filter map c_mime].
    destruct (isTypeSupported "audio/mp4"%string),
      (isTypeSupported "audio/webm;codecs=opus"%string),
      (isTypeSupported "audio/webm"%string),
      (isTypeSupported "audio/ogg"%string);
      reflexivity.
  - unfold getSupportedFormats.
    destruct (mediaRecorder host) as [isTypeSupported|].
    + apply probe_all. apply NoDup_singleton.
    + apply NoDup_singleton.
  - intros isTypeSupported formats c Hin. unfold probe.
    destruct (isTypeSupported (c_mime c)); [|reflexivity].
    destruct (find _ formats) eqn:Hfind; [reflexivity|].
    apply find_mime_None in Hfind. contradiction.
  - intros host' Hsame. unfold getSupportedFormats. rewrite Hsame.
    reflexivity.
Qed.

Lemma getSupportedFormats_order_witness :
  getSupportedFormats exampleHost
  = [wavFormat;
     mkAudioFormat "WebM (Opus)" "audio/webm;codecs=opus" "webm";
     mkAudioFormat "WebM" "audio/webm" "webm"]
  /\ probe (fun _ => true) [wavFormat]
       (mkCandidate "audio/wav" "wav" "WAV again")
     = [wavFormat]
  /\ getSupportedFormats
       (mkHost (fun _ => 1%Z) (fun _ _ _ => true) (mediaRecorder exampleHost))
     = getSupportedFormats exampleHost.
Proof.
  destruct (getSupportedFormats_order exampleHost)
    as (Horder & _ & Hskip & Hsame).
  split; [exact Horder|]. split.
  - apply Hskip. cbn. left. reflexivity.
  - apply Hsame. reflexivity.
Defined.



(** ** The transcoder *)

Lemma handle_settled_closed (mimeType : string) (st : Transcode) (e : Event) :
  settled_closed st -> settled_closed (handle mimeType st e).
Proof.
  unfold settled_closed. destruct st as [c r n ch rec t p].
  cbn [promise ctx releases]. intros Hst.
  destruct e as [data| | | |]; cbn [handle];
    try destruct (0 <? length data)%nat; try destruct t;
    unfold settle, ctx_close, set_recorder;
    cbn [promise ctx releases closeCalls chunks recorder timers];
    try exact Hst;
    (destruct Hst as [(-> & -> & ->)|(Hp & -> & ->)];
     [ right; cbn; repeat split; congruence
     | destruct p; try congruence; right; cbn; repeat split; congruence ]).
Qed.

Lemma events_settled_closed (mimeType : string) (events : list Event) :
  forall st : Transcode,
    settled_closed st -> settled_closed (foldl (handle mimeType) st events).
Proof.
  induction events as [|e events IH]; intros st Hst; [exact Hst|].
  cbn [foldl]. apply IH, handle_settled_closed, Hst.
Qed.

(** When the recorder accepts the MIME type, the context is closed, and
    released once, by the time the promise is settled, whatever events the
    platform delivers. *)
Lemma transcodeToBlob_accepted (host : Host) (audioBuffer : AudioBuffer)
  (mimeType : string) (isTypeSupported : string -> bool)
  (events : list Event) :
  mediaRecorder host = Some isTypeSupported ->
  isTypeSupported mimeType = true ->
  let st := transcodeToBlob host audioBuffer mimeType events in
  promise st <> Pending -> ctx st = Closed /\ releases st = 1%nat.
Proof.
  intros Hrec Hsup st Hsettled. unfold st, transcodeToBlob in *.
  rewrite Hrec, Hsup in *.
  destruct (events_settled_closed mimeType events
              (set_recorder Recording
                 (mkTranscode Running 0 0 [] Inactive 0 Pending)))
    as [(Hp & _)|(_ & Hc & Hr)].
  - left. repeat split; reflexivity.
  - contradiction.
  - split; assumption.
Qed.

Lemma transcodeToBlob_stop (host : Host) (audioBuffer : AudioBuffer)
  (mimeType : string) (isTypeSupported : string -> bool)
  (data : list byte) :
  mediaRecorder host = Some isTypeSupported ->
  isTypeSupported mimeType = true ->
  let st := transcodeToBlob host audioBuffer mimeType
              [Ended; Timeout; DataAvailable (Byte.x01 :: data); Stop] in
  promise st = Resolved (mkBlob (Byte.x01 :: data) (blobType mimeType))
  /\ ctx st = Closed /\ releases st = 1%nat /\ closeCalls st = 1%nat.
Proof.
  intros Hrec Hsup. cbv zeta. unfold transcodeToBlob. rewrite Hrec, Hsup.
  cbn. rewrite app_nil_r. repeat split; reflexivity.
Qed.

Lemma transcodeToBlob_error (host : Host) (audioBuffer : AudioBuffer)
  (mimeType : string) (isTypeSupported : string -> bool) :
  mediaRecorder host = Some isTypeSupported ->
  isTypeSupported mimeType = true ->
  let st := transcodeToBlob host audioBuffer mimeType [Error] in
  promise st = Rejected TranscodeError
  /\ ctx st = Closed /\ releases st = 1%nat /\ closeCalls st = 1%nat.
Proof.
  intros Hrec Hsup. cbv zeta. unfold transcodeToBlob. rewrite Hrec, Hsup.
  repeat split; reflexivity.
Qed.

(** C1 at the MIME type [audio/flac], which the recorder of [exampleHost]
    does not support: the call is rejected with [UnsupportedFormatError],
    and the context it opened is still running, never closed, whatever
    events follow. *)
Theorem transcodeToBlob_unsupported_leaks (events : list Event) :
  let st := transcodeToBlob exampleHost stereoExample "audio/flac" events in
  promise st = Rejected UnsupportedFormatError
  /\ ctx st = Running
  /\ releases st = 0%nat
  /\ closeCalls st = 0%nat.
Proof. repeat split; reflexivity. Qed.

(** * Further properties *)

(** ** The transcoder's callbacks *)

Lemma transcodeToBlob_recording (host : Host) (audioBuffer : AudioBuffer)
  (mimeType : string) (isTypeSupported : string -> bool)
  (events : list Event) :
  mediaRecorder host = Some isTypeSupported ->
  isTypeSupported mimeType = true ->
  transcodeToBlob host audioBuffer mimeType events
  = foldl (handle mimeType) recording_start events.
Proof.
  intros Hrec Hsup. unfold transcodeToBlob. rewrite Hrec, Hsup. reflexivity.
Qed.

(** Events other than [stop] and [error] leave the context and the promise
    alone and append their fragments. *)
Lemma handle_quiet (mimeType : string) (events : list Event) :
  forall st : Transcode,
    forallb (fun e => negb (closes e)) events = true ->
    let st' := foldl (handle mimeType) st events in
    promise st' = promise st /\ ctx st' = ctx st
    /\ releases st' = releases st /\ closeCalls st' = closeCalls st
    /\ chunks st' = chunks st ++ fragments events.
Proof.
  induction events as [|e events IH]; intros st Hq; cbn [foldl].
  - cbn [fragments]. rewrite app_nil_r. repeat split; reflexivity.
  - cbn [forallb] in Hq. apply andb_prop in Hq as [He Hq].
    destruct (IH (handle mimeType st e) Hq) as (Hp & Hc & Hr & Hcc & Hch).
    cbv zeta. rewrite Hp, Hc, Hr, Hcc, Hch.
    destruct e as [data| | | |]; try discriminate He;
      cbn [handle fragments].
    + destruct (0 <? length data)%nat;
        cbn [promise ctx releases closeCalls chunks];
        rewrite <- ?app_assoc; repeat split; reflexivity.
    + repeat split; reflexivity.
    + destruct (timers st); repeat split; reflexivity.
Qed.

(** A settled promise stays as it is. *)
Lemma handle_settled (mimeType : string) (events : list Event) :
  forall st : Transcode,
    promise st <> Pending ->
    promise (foldl (handle mimeType) st events) = promise st.
Proof.
  induction events as [|e events IH]; intros st Hs; [reflexivity|].
  cbn [foldl].
  assert (He : promise (handle mimeType st e) = promise st).
  { destruct st as [c r n ch rec t p]. cbn [promise] in Hs.
    destruct e as [data| | | |]; cbn [handle];
      try destruct (0 <? length data)%nat; try destruct t;
      unfold settle, ctx_close, set_recorder; cbn [promise];
      try reflexivity; destruct p; cbn [promise]; congruence. }
  rewrite IH; [exact He | rewrite He; exact Hs].
Qed.

Lemma first_closing (events : list Event) :
  forallb (fun e => negb (closes e)) events = false ->
  exists (before : list Event) (e : Event) (after : list Event),
    events = before ++ e :: after
    /\ forallb (fun e => negb (closes e)) before = true
    /\ closes e = true.
Proof.
  induction events as [|e events IH]; cbn [forallb]; [discriminate|].
  destruct (closes e) eqn:He; cbn [negb andb].
  - intros _. exists [], e, events. repeat split; assumption.
  - intros Hq. destruct (IH Hq) as (before & e' & after & -> & Hb & He').
    exists (e :: before), e', after. cbn [forallb app]. rewrite He, Hb.
    repeat split; assumption.
Qed.

Lemma handle_closing_settles (mimeType : string) (st : Transcode)
  (e : Event) :
  closes e = true -> promise (handle mimeType st e) <> Pending.
Proof.
  destruct st as [c r n ch rec t p].
  destruct e; try discriminate; intros _; cbn [handle];
    unfold settle, ctx_close, set_recorder; cbn [promise];
    destruct p; cbn [promise]; congruence.
Qed.

(** X1: once the recorder is running, the first [stop] or [error] event
    decides the outcome.  A [stop] resolves the promise with one blob that
    holds the non-empty fragments received until then, concatenated in the
    order of arrival; its type is the requested MIME type as [Blob]
    normalises it (in lower case, or empty if a character is outside
    U+0020..U+007E), which leaves each MIME type of the probe as it is.  An
    [error] rejects the promise.  Whatever the platform delivers afterwards
    does not change the outcome. *)
Theorem transcodeToBlob_first_closing (host : Host)
  (audioBuffer : AudioBuffer) (mimeType : string)
  (isTypeSupported : string -> bool) (before after : list Event) :
  mediaRecorder host = Some isTypeSupported ->
  isTypeSupported mimeType = true ->
  forallb (fun e => negb (closes e)) before = true ->
  promise (transcodeToBlob host audioBuffer mimeType (before ++ Stop :: after))
  = Resolved (mkBlob (concat (fragments before)) (blobType mimeType))
  /\ promise
       (transcodeToBlob host audioBuffer mimeType (before ++ Error :: after))
     = Rejected TranscodeError
  /\ (In mimeType (map c_mime candidates) -> blobType mimeType = mimeType).
Proof.
  intros Hrec Hsup Hquiet.
  rewrite !(transcodeToBlob_recording host audioBuffer mimeType
              isTypeSupported _ Hrec Hsup).
  rewrite !foldl_app. cbn [foldl].
  destruct (handle_quiet mimeType before recording_start Hquiet)
    as (Hp & _ & _ & _ & Hch).
  cbn [recording_start promise chunks set_recorder app] in Hp, Hch.
  split; [|split].
  - rewrite handle_settled by (apply handle_closing_settles; reflexivity).
    cbn [handle]. unfold settle, ctx_close, set_recorder. cbn [promise].
    rewrite Hp. cbn [chunks]. rewrite Hch. reflexivity.
  - rewrite handle_settled by (apply handle_closing_settles; reflexivity).
    cbn [handle]. unfold settle, ctx_close. cbn [promise].
    rewrite Hp. reflexivity.
  - cbn [candidates map c_mime In].
    intros [<-|[<-|[<-|[<-|[]]]]]; reflexivity.
Qed.

Lemma transcodeToBlob_first_closing_witness :
  promise
    (transcodeToBlob (mkHost (fun _ => 0%Z) (fun _ _ _ => true)
                        (Some (fun _ => true)))
       stereoExample "audio/WebM"
       ([DataAvailable [Byte.x01]; DataAvailable []; Ended; Timeout;
         DataAvailable [Byte.x02; Byte.x03]]
        ++ Stop :: [Error; DataAvailable [Byte.x04]; Stop]))
  = Resolved (mkBlob [Byte.x01; Byte.x02; Byte.x03] "audio/webm").
Proof.
  apply (proj1 (transcodeToBlob_first_closing
                  (mkHost (fun _ => 0%Z) (fun _ _ _ => true)
                     (Some (fun _ => true)))
                  stereoExample "audio/WebM" (fun _ => true)
                  [DataAvailable [Byte.x01]; DataAvailable []; Ended; Timeout;
                   DataAvailable [Byte.x02; Byte.x03]]
                  [Error; DataAvailable [Byte.x04]; Stop]
                  eq_refl eq_refl eq_refl)).
Defined.

(** X2: once the recorder is running, the promise is settled exactly when
    a [stop] or an [error] event has been delivered.  The end of playback
    and the timer alone never settle it, and until then the context stays
    open and [ctx.close()] has not been called: the call has no timeout of
    its own. *)
Theorem transcodeToBlob_pending (host : Host) (audioBuffer : AudioBuffer)
  (mimeType : string) (isTypeSupported : string -> bool)
  (events : list Event) :
  mediaRecorder host = Some isTypeSupported ->
  isTypeSupported mimeType = true ->
  let st := transcodeToBlob host audioBuffer mimeType events in
  (promise st = Pending
   <-> forallb (fun e => negb (closes e)) events = true)
  /\ (promise st = Pending -> ctx st = Running /\ closeCalls st = 0%nat).
Proof.
  intros Hrec Hsup st. unfold st.
  rewrite (transcodeToBlob_recording host audioBuffer mimeType
             isTypeSupported _ Hrec Hsup).
  assert (Hiff : promise (foldl (handle mimeType) recording_start events)
                 = Pending
                 <-> forallb (fun e => negb (closes e)) events = true).
  { split.
    - intros Hp.
      destruct (forallb (fun e => negb (closes e)) events) eqn:Hq;
        [reflexivity|].
      destruct (first_closing events Hq)
        as (before & e & after & -> & Hb & He).
      rewrite foldl_app in Hp. cbn [foldl] in Hp.
      rewrite handle_settled in Hp by (apply handle_closing_settles, He).
      exfalso. revert Hp. apply handle_closing_settles, He.
    - intros Hq.
      destruct (handle_quiet mimeType events recording_start Hq) as (Hp & _).
      exact Hp. }
  split; [exact Hiff|].
  intros Hp. apply Hiff in Hp.
  destruct (handle_quiet mimeType events recording_start Hp)
    as (_ & Hc & _ & Hcc & _).
  split; assumption.
Qed.

Lemma transcodeToBlob_pending_witness :
  let st := transcodeToBlob exampleHost stereoExample "audio/webm"
              [DataAvailable [Byte.x01]; Ended; Timeout; Timeout] in
  promise st = Pending /\ ctx st = Running /\ closeCalls st = 0%nat.
Proof.
  cbv zeta.
  pose proof (transcodeToBlob_pending exampleHost stereoExample "audio/webm"
                (fun m => String.eqb m "audio/webm;codecs=opus"
                          || String.eqb m "audio/webm")
                [DataAvailable [Byte.x01]; Ended; Timeout; Timeout]
                eq_refl eq_refl) as [Hiff Hopen].
  cbv zeta in Hiff, Hopen.
  assert (Hp := proj2 Hiff eq_refl).
  split; [exact Hp | exact (Hopen Hp)].
Defined.

Lemma handle_close_count (mimeType : string) (st : Transcode) (e : Event) :
  closeCalls (handle mimeType st e)
  = (closeCalls st + (if closes e then 1 else 0))%nat
  /\ ctx (handle mimeType st e) = (if closes e then Closed else ctx st)
  /\ releases (handle mimeType st e)
     = (if closes e
        then match ctx st with
             | Running => S (releases st)
             | Closed => releases st
             end
        else releases st).
Proof.
  destruct st as [c r n ch rec t p].
  destruct e as [data| | | |]; cbn [handle closes];
    try destruct (0 <? length data)%nat; try destruct t;
    unfold settle, ctx_close, set_recorder;
    cbn [promise ctx releases closeCalls timers];
    try destruct p; cbn [ctx releases closeCalls];
    repeat split; try reflexivity; lia.
Qed.

(** X3: once the recorder is running, every [stop] and every [error] event
    calls [ctx.close()], so the number of calls is the number of such events
    (an [error] followed by the [stop] that ends the recording makes two);
    only the first of them finds the context open and releases it. *)
Theorem transcodeToBlob_close_calls (host : Host) (audioBuffer : AudioBuffer)
  (mimeType : string) (isTypeSupported : string -> bool)
  (events : list Event) :
  mediaRecorder host = Some isTypeSupported ->
  isTypeSupported mimeType = true ->
  let st := transcodeToBlob host audioBuffer mimeType events in
  let n := length (List.filter closes events) in
  closeCalls st = n
  /\ releases st = (n `min` 1)%nat
  /\ (ctx st = Closed <-> (1 <= n)%nat).
Proof.
  intros Hrec Hsup. cbv zeta.
  rewrite (transcodeToBlob_recording host audioBuffer mimeType
             isTypeSupported _ Hrec Hsup).
  induction events as [|e events IH] using rev_ind.
  - cbn. repeat split; try lia. discriminate.
  - rewrite foldl_app, List.filter_app, length_app. cbn [foldl List.filter].
    destruct IH as (Hcc & Hr & Hc).
    destruct (handle_close_count mimeType
                (foldl (handle mimeType) recording_start events) e)
      as (Hcc' & Hc' & Hr').
    rewrite Hcc', Hc', Hr', Hcc, Hr.
    destruct (closes e); cbn [length].
    + destruct (ctx (foldl (handle mimeType) recording_start events)) eqn:Hx.
      * assert (length (List.filter closes events) = 0%nat) as ->.
        { destruct (length (List.filter closes events)); [reflexivity|].
          assert (Running = Closed) by (apply Hc; lia). discriminate. }
        repeat split; lia.
      * assert (1 <= length (List.filter closes events))%nat
          by (apply Hc; reflexivity).
        repeat split; lia.
    + rewrite !Nat.add_0_r. repeat split; try lia; apply Hc.
Qed.

Lemma transcodeToBlob_close_calls_witness :
  let st := transcodeToBlob exampleHost stereoExample "audio/webm"
              [Error; DataAvailable [Byte.x01]; Stop] in
  closeCalls st = 2%nat /\ releases st = 1%nat
  /\ promise st = Rejected TranscodeError.
Proof.
  cbv zeta.
  destruct (transcodeToBlob_close_calls exampleHost stereoExample "audio/webm"
              (fun m => String.eqb m "audio/webm;codecs=opus"
                        || String.eqb m "audio/webm")
              [Error; DataAvailable [Byte.x01]; Stop] eq_refl eq_refl)
    as (Hcc & Hr & _).
  split; [exact Hcc|]. split; [exact Hr | reflexivity].
Defined.

(** ** Base64 payloads *)

Lemma charCode_bytes (s : string) :
  map (fun i => byte.of_Z (charCodeAt_at s i)) (seq 0 (String.length s))
  = string_bytes s.
Proof.
  induction s as [|c s IH]; [reflexivity|].
  cbn [String.length seq map string_bytes]. f_equal.
  rewrite <- IH, <- seq_shift, map_map. reflexivity.
Qed.

Lemma length_string_bytes (s : string) :
  length (string_bytes s) = String.length s.
Proof.
  induction s as [|c s IH]; [reflexivity|].
  cbn [string_bytes length String.length]. rewrite IH. reflexivity.
Qed.

Lemma string_bytes_lookup (s : string) :
  forall (i : nat) (c : Ascii.ascii),
    String.get i s = Some c ->
    string_bytes s !! i = Some (byte.of_Z (charCodeAt c))
    /\ byte.unsigned (byte.of_Z (charCodeAt c)) = charCodeAt c.
Proof.
  induction s as [|c0 s IH]; intros i c Hget; [discriminate|].
  destruct i as [|i]; cbn [String.get string_bytes] in *.
  - injection Hget as ->. split; [reflexivity|].
    rewrite byte.unsigned_of_Z. unfold byte.wrap, charCodeAt.
    apply Z.mod_small.
    pose proof (Ascii.N_ascii_bounded c). lia.
  - apply IH. exact Hget.
Qed.

Lemma decodeBase64_closed (atob : string -> option string)
  (base64 : string) :
  decodeBase64 atob base64
  = match atob base64 with
    | Some binaryString => Ok (string_bytes binaryString)
    | None => Err MalformedInputError
    end.
Proof.
  unfold decodeBase64. destruct (atob base64) as [bin|]; [|reflexivity].
  f_equal.
  rewrite (fill_loop (fun i => byte.of_Z (charCodeAt_at bin i))).
  rewrite length_replicate, Nat.min_id, drop_ge
    by (rewrite length_replicate; lia).
  rewrite app_nil_r. apply charCode_bytes.
Qed.

(** X4: [decodeBase64] fails exactly when [atob] does; otherwise it returns
    one byte per character of the binary string, in order, and each byte is
    the character's code (the store into the [Uint8Array] never wraps). *)
Theorem decodeBase64_bytes (atob : string -> option string)
  (base64 : string) :
  (atob base64 = None ->
   decodeBase64 atob base64 = Err MalformedInputError)
  /\ (forall binaryString : string,
        atob base64 = Some binaryString ->
        exists bytes : list byte,
          decodeBase64 atob base64 = Ok bytes
          /\ length bytes = String.length binaryString
          /\ forall (i : nat) (c : Ascii.ascii),
               String.get i binaryString = Some c ->
               byte.unsigned <$> bytes !! i
               = Some (Z.of_N (Ascii.N_of_ascii c))).
Proof.
  rewrite decodeBase64_closed. split.
  - intros ->. reflexivity.
  - intros bin ->. exists (string_bytes bin).
    split; [reflexivity|]. split; [apply length_string_bytes|].
    intros i c Hget.
    destruct (string_bytes_lookup bin i c Hget) as [-> Hu].
    cbn [fmap option_fmap option_map]. rewrite Hu. reflexivity.
Qed.

Lemma decodeBase64_bytes_witness :
  decodeBase64 exampleAtob "AID/fw=" = Err MalformedInputError
  /\ exists bytes : list byte,
       decodeBase64 exampleAtob "AID/fw==" = Ok bytes
       /\ length bytes = 4%nat
       /\ byte.unsigned <$> bytes !! 2%nat = Some 255%Z.
Proof.
  split.
  - apply (proj1 (decodeBase64_bytes exampleAtob "AID/fw=")). reflexivity.
  - destruct (proj2 (decodeBase64_bytes exampleAtob "AID/fw==") _ eq_refl)
      as (bytes & Hbytes & Hlen & Hcode).
    exists bytes. split; [exact Hbytes|]. split; [exact Hlen|].
    apply (Hcode 2%nat (Ascii.ascii_of_nat 255)). reflexivity.
Defined.

(** The little-endian reading of two bytes, as arithmetic. *)
Lemma le_combine_pair (lo hi : byte) :
  le_combine [lo; hi] = (byte.unsigned lo + 256 * byte.unsigned hi)%Z.
Proof.
  pose proof (byte.unsigned_range lo) as Hlo.
  pose proof (byte.unsigned_range hi) as Hhi.
  change (2 ^ 8)%Z with 256%Z in *.
  set (v := (byte.unsigned lo + 256 * byte.unsigned hi)%Z).
  assert (Hsplit : le_split 2 v = [lo; hi]).
  { change (le_split 2 v) with [byte.of_Z v; byte.of_Z (Z.shiftr v 8)].
    f_equal; [|f_equal].
    - apply byte.unsigned_inj. rewrite byte.unsigned_of_Z.
      unfold byte.wrap, v. change (2 ^ 8)%Z with 256%Z.
      replace (byte.unsigned lo + 256 * byte.unsigned hi)%Z
        with (byte.unsigned lo + byte.unsigned hi * 256)%Z by lia.
      rewrite Z.mod_add by lia. apply Z.mod_small. exact Hlo.
    - rewrite Z.shiftr_div_pow2 by lia. change (2 ^ 8)%Z with 256%Z.
      replace (v / 256)%Z with (byte.unsigned hi).
      + apply byte.of_Z_unsigned.
      + unfold v.
        replace (byte.unsigned lo + 256 * byte.unsigned hi)%Z
          with (byte.unsigned lo + byte.unsigned hi * 256)%Z by lia.
        rewrite Z.div_add, Z.div_small by lia. lia. }
  rewrite <- Hsplit, le_combine_split.
  apply Z.mod_small. change (2 ^ (Z.of_nat 2 * 8))%Z with 65536%Z.
  unfold v. lia.
Qed.

(** X5: the decoding [handleGenerate] performs on a payload.  It fails as
    a malformed input when [atob] rejects the payload and as an allocation
    failure when the platform refuses the buffer; otherwise it yields a
    24000 Hz buffer of one channel with one sample for every two characters
    of the binary string (a last odd character is ignored), and sample [i]
    is the signed 16-bit value [code(2i) + 256 * code(2i+1)] divided by
    32768. *)
Theorem decodePayload_samples (host : Host) (atob : string -> option string)
  (base64Audio : string) :
  (atob base64Audio = None ->
   decodePayload host atob base64Audio = Err MalformedInputError)
  /\ (forall binaryString : string,
        atob base64Audio = Some binaryString ->
        let frames := (String.length binaryString / 2)%nat in
        (bufferAllowed host 1 frames 24000 = false ->
         decodePayload host atob base64Audio = Err AllocationError)
        /\ (bufferAllowed host 1 frames 24000 = true ->
            exists samples : list number,
              decodePayload host atob base64Audio
              = Ok (mkAudioBuffer 24000 [samples])
              /\ length samples = frames
              /\ forall (i : nat) (lo hi : Ascii.ascii),
                   String.get (2 * i) binaryString = Some lo ->
                   String.get (2 * i + 1) binaryString = Some hi ->
                   samples !! i
                   = Some (Fin (to_signed16
                                  (charCodeAt lo + 256 * charCodeAt hi)
                                # 32768)))).
Proof.
  unfold decodePayload. split.
  - intros Hatob. rewrite decodeBase64_closed, Hatob. reflexivity.
  - intros bin Hatob. set (frames := (String.length bin / 2)%nat).
    rewrite decodeBase64_closed, Hatob. cbn [bind].
    rewrite decodeAudioData_closed by (lia || reflexivity). cbv zeta.
    unfold byteLength, freshArray. cbn [ua_bytes].
    rewrite length_string_bytes, Nat.div_1_r. fold frames.
    split; [intros ->; reflexivity|]. intros ->.
    eexists. split; [reflexivity|].
    unfold decoded_channel. split; [rewrite length_map; apply length_seq|].
    intros i lo hi Hlo Hhi.
    destruct (string_bytes_lookup bin _ _ Hlo) as [Hblo Hulo].
    destruct (string_bytes_lookup bin _ _ Hhi) as [Hbhi Huhi].
    assert (Hi : (i < frames)%nat).
    { assert (2 * i + 1 < length (string_bytes bin))%nat
        by (eapply lookup_lt_Some; exact Hbhi).
      rewrite length_string_bytes in *. unfold frames.
      pose proof (Nat.div_mod_eq (String.length bin) 2) as Hdm.
      pose proof (Nat.mod_upper_bound (String.length bin) 2) as Hm.
      lia. }
    rewrite lookup_map_seq by exact Hi.
    rewrite Nat.mul_1_r, Nat.add_0_r.
    destruct (int16_elements_lookup (string_bytes bin) i)
      as (lo' & hi' & Hlo' & Hhi' & Hv).
    { rewrite length_string_bytes. exact Hi. }
    rewrite Hblo in Hlo'. rewrite Hbhi in Hhi'.
    injection Hlo' as <-. injection Hhi' as <-.
    rewrite Hv, le_combine_pair, Hulo, Huhi. reflexivity.
Qed.

Lemma decodePayload_samples_witness :
  decodePayload exampleHost exampleAtob "AID/fw=="
  = Ok (mkAudioBuffer 24000 [[Fin (-32768 # 32768); Fin (32767 # 32768)]])
  /\ decodePayload exampleHost exampleAtob "no payload"
     = Err MalformedInputError.
Proof.
  split.
  - destruct (proj2 (decodePayload_samples exampleHost exampleAtob "AID/fw==")
                _ eq_refl) as [_ Hok].
    destruct (Hok eq_refl) as (samples & -> & Hlen & Hs).
    pose proof (Hs 0%nat (Ascii.ascii_of_nat 0) (Ascii.ascii_of_nat 128)
                  eq_refl eq_refl) as H0.
    pose proof (Hs 1%nat (Ascii.ascii_of_nat 255) (Ascii.ascii_of_nat 127)
                  eq_refl eq_refl) as H1.
    destruct samples as [|s0 [|s1 [|s2 rest]]]; try discriminate Hlen.
    cbn in H0, H1. injection H0 as ->. injection H1 as ->. reflexivity.
  - apply (proj1 (decodePayload_samples exampleHost exampleAtob "no payload")).
    reflexivity.
Defined.

(** ** [interleave] on arrays of any lengths *)

Lemma interleaved_cell_even (inputL inputR : list number) (k : nat) :
  interleaved_cell inputL inputR (2 * k) = ta_get inputL k.
Proof.
  unfold interleaved_cell.
  rewrite Nat.even_mul, Nat.mul_comm, Nat.div_mul by lia. reflexivity.
Qed.

Lemma interleaved_cell_odd (inputL inputR : list number) (k : nat) :
  interleaved_cell inputL inputR (2 * k + 1) = ta_get inputR k.
Proof.
  unfold interleaved_cell.
  rewrite Nat.even_add, Nat.even_mul. cbn [Nat.even orb Bool.eqb].
  replace (2 * k + 1)%nat with (1 + k * 2)%nat by lia.
  rewrite Nat.div_add, Nat.div_small by lia. reflexivity.
Qed.

Lemma interleave_loop_cells (inputL inputR : list number) :
  forall (m k : nat) (done rest : list number),
    (length rest <= 2 * m)%nat ->
    length done = (2 * k)%nat ->
    interleave_loop inputL inputR (done ++ rest)
      (length done + length rest) (2 * k) k
    = done ++ map (interleaved_cell inputL inputR)
                (seq (2 * k) (length rest)).
Proof.
  induction m as [|m IH]; intros k done rest Hm Hdone;
    rewrite interleave_loop_equation_1.
  - destruct rest; [|cbn [length] in Hm; lia].
    destruct (lt_dec (2 * k) (length done + length [])) as [Hlt|Hge];
      [cbn [length] in Hlt; lia|].
    reflexivity.
  - destruct rest as [|a [|b rest]].
    + destruct (lt_dec (2 * k) (length done + length [])) as [Hlt|Hge];
        [cbn [length] in Hlt; lia|].
      reflexivity.
    + destruct (lt_dec (2 * k) (length done + length [a])) as [Hlt|Hge];
        [|cbn [length] in Hge; lia].
      cbn [interleave_loop_unfold_clause_1]. cbv zeta. unfold ta_set.
      rewrite insert_app_r_alt by lia.
      replace (2 * k - length done)%nat with 0%nat by lia.
      cbn [insert list_insert].
      rewrite list_insert_ge by (rewrite length_app; cbn [length]; lia).
      rewrite interleave_loop_equation_1.
      destruct (lt_dec (2 * k + 2) (length done + length [a])) as [Hlt'|Hge];
        [cbn [length] in Hlt'; lia|].
      cbn [interleave_loop_unfold_clause_1 length seq map].
      rewrite interleaved_cell_even. reflexivity.
    + destruct (lt_dec (2 * k) (length done + length (a :: b :: rest)))
        as [Hlt|Hge]; [|cbn [length] in Hge; lia].
      cbn [interleave_loop_unfold_clause_1]. cbv zeta. unfold ta_set.
      rewrite insert_app_r_alt by lia.
      replace (2 * k - length done)%nat with 0%nat by lia.
      cbn [insert list_insert].
      rewrite insert_app_r_alt by lia.
      replace (2 * k + 1 - length done)%nat with 1%nat by lia.
      cbn [insert list_insert].
      change (done ++ ta_get inputL k :: ta_get inputR k :: rest)
        with (done ++ [ta_get inputL k; ta_get inputR k] ++ rest).
      rewrite app_assoc.
      replace (length done + length (a :: b :: rest))%nat
        with (length (done ++ [ta_get inputL k; ta_get inputR k])
              + length rest)%nat
        by (rewrite length_app; cbn [length]; lia).
      replace (2 * k + 2)%nat with (2 * (k + 1))%nat by lia.
      cbn [length] in Hm.
      rewrite IH by (try (rewrite length_app; cbn [length]); lia).
      cbn [length seq map].
      rewrite interleaved_cell_even.
      replace (S (2 * k)) with (2 * k + 1)%nat by lia.
      rewrite interleaved_cell_odd.
      replace (S (2 * k + 1)) with (2 * (k + 1))%nat by lia.
      rewrite <- app_assoc. reflexivity.
Qed.

(** X6: for two arrays of any lengths, [interleave] returns an array as
    long as both together whose even index [2k] holds [inputL[k]] and whose
    odd index [2k + 1] holds [inputR[k]]; where the two lengths differ, the
    shorter array contributes NaN beyond its end and the samples of the
    longer one beyond half the total are left out. *)
Theorem interleave_cells (inputL inputR : list number) :
  interleave inputL inputR
  = map (interleaved_cell inputL inputR)
      (seq 0 (length inputL + length inputR))
  /\ (forall k : nat,
        (2 * k < length inputL + length inputR)%nat ->
        interleave inputL inputR !! (2 * k)%nat
        = Some (default NaN (inputL !! k)))
  /\ (forall k : nat,
        (2 * k + 1 < length inputL + length inputR)%nat ->
        interleave inputL inputR !! (2 * k + 1)%nat
        = Some (default NaN (inputR !! k))).
Proof.
  assert (Heq : interleave inputL inputR
                = map (interleaved_cell inputL inputR)
                    (seq 0 (length inputL + length inputR))).
  { unfold interleave.
    pose proof (interleave_loop_cells inputL inputR
                  (length inputL + length inputR) 0 []
                  (replicate (length inputL + length inputR) (Fin 0))) as H.
    rewrite length_replicate in H. cbn [app length Nat.add Nat.mul] in H.
    apply H; lia. }
  split; [exact Heq|]. rewrite Heq. split; intros k Hk.
  - rewrite lookup_map_seq by exact Hk.
    rewrite interleaved_cell_even. reflexivity.
  - rewrite lookup_map_seq by exact Hk.
    rewrite interleaved_cell_odd. reflexivity.
Qed.

Lemma interleave_cells_witness :
  interleave [Fin 1; Fin 2; Fin 3] [Fin 4] = [Fin 1; Fin 4; Fin 2; NaN]
  /\ interleave [Fin 1; Fin 2; Fin 3] [Fin 4] !! 2%nat = Some (Fin 2)
  /\ interleave [Fin 1; Fin 2; Fin 3] [Fin 4] !! 3%nat = Some NaN.
Proof.
  destruct (interleave_cells [Fin 1; Fin 2; Fin 3] [Fin 4])
    as (Heq & Heven & Hodd).
  split; [exact Heq|]. split.
  - apply (Heven 1%nat). cbn. lia.
  - apply (Hodd 1%nat). cbn. lia.
Defined.

(** ** [encodeWAV] at other formats and bit depths *)

















(** ** The download handler *)

Lemma getSupportedFormats_closed (host : Host) :
  getSupportedFormats host
  = wavFormat
    :: map formatOf
         (List.filter (fun c => capability host (c_mime c)) candidates).
Proof.
  unfold getSupportedFormats, capability.
  destruct (mediaRecorder host) as [isTypeSupported|]; [|reflexivity].
  unfold candidates, probe. cbn [foldl List.filter map c_mime].
  destruct (isTypeSupported "audio/mp4"%string),
    (isTypeSupported "audio/webm;codecs=opus"%string),
    (isTypeSupported "audio/webm"%string),
    (isTypeSupported "audio/ogg"%string);
    reflexivity.
Qed.

(** An offered format is WAV or a candidate the platform can record. *)
Lemma getSupportedFormats_In (host : Host) (f : AudioFormat) :
  In f (getSupportedFormats host) ->
  f = wavFormat
  \/ (mimeType f <> "audio/wav"%string
      /\ exists isTypeSupported : string -> bool,
           mediaRecorder host = Some isTypeSupported
           /\ isTypeSupported (mimeType f) = true).
Proof.
  rewrite getSupportedFormats_closed. intros [<-|Hin]; [left; reflexivity|].
  right. apply in_map_iff in Hin as (c & <- & Hc).
  apply List.filter_In in Hc as [Hc Hcap].
  unfold capability in Hcap.
  destruct (mediaRecorder host) as [isTypeSupported|]; [|discriminate].
  split.
  - unfold candidates in Hc. cbn [In] in Hc.
    destruct Hc as [<-|[<-|[<-|[<-|[]]]]]; discriminate.
  - exists isTypeSupported. split; [reflexivity | exact Hcap].
Qed.

Lemma handle_rejected (mimeType : string) (events : list Event) :
  forall (st : Transcode) (e : error),
    promise (foldl (handle mimeType) st events) = Rejected e ->
    promise st = Rejected e \/ In Error events.
Proof.
  induction events as [|ev events IH]; intros st e Hp; [left; exact Hp|].
  cbn [foldl] in Hp. destruct (IH _ _ Hp) as [Hst|Hin];
    [|right; right; exact Hin].
  destruct ev as [data| | | |]; try (right; left; reflexivity); left;
    destruct st as [c r n ch rec t p]; cbn [handle] in Hst;
    try destruct (0 <? length data)%nat; try destruct t;
    unfold settle, ctx_close, set_recorder in Hst; cbn [promise] in *;
    try exact Hst; destruct p; cbn [promise] in Hst; congruence.
Qed.

Lemma recording_pending_quiet (mimeType : string) (events : list Event) :
  promise (foldl (handle mimeType) recording_start events) = Pending ->
  forallb (fun e => negb (closes e)) events = true.
Proof.
  intros Hp.
  destruct (forallb (fun e => negb (closes e)) events) eqn:Hq;
    [reflexivity|].
  destruct (first_closing events Hq) as (before & e & after & -> & Hb & He).
  rewrite foldl_app in Hp. cbn [foldl] in Hp.
  rewrite handle_settled in Hp by (apply handle_closing_settles, He).
  exfalso. revert Hp. apply handle_closing_settles, He.
Qed.

(** The format [handleDownload] settles on, among the offered ones. *)
Lemma offered_formatInfo (host : Host) (selectedFormat : string) :
  exists f : AudioFormat,
    match find (fun f => String.eqb (mimeType f) selectedFormat)
            (getSupportedFormats host) with
    | Some f => Some f
    | None => head (getSupportedFormats host)
    end = Some f
    /\ In f (getSupportedFormats host)
    /\ ((selectedFormat = "audio/wav"%string
         \/ ~ In selectedFormat (map mimeType (getSupportedFormats host))) ->
        f = wavFormat).
Proof.
  destruct (find _ (getSupportedFormats host)) as [f|] eqn:Hfind.
  - exists f. split; [reflexivity|].
    apply find_some in Hfind as [Hin Hmime].
    apply String.eqb_eq in Hmime.
    split; [exact Hin|].
    intros [Hwav|Hout].
    + destruct (getSupportedFormats_In host f Hin) as [Hf|[Hne _]];
        [exact Hf | congruence].
    + exfalso. apply Hout. rewrite <- Hmime. apply in_map. exact Hin.
  - exists wavFormat. rewrite getSupportedFormats_closed.
    split; [reflexivity|]. split; [left; reflexivity | reflexivity].
Qed.

(** X9: [handleDownload] on the formats [getSupportedFormats] offers, for a
    buffer with at least one channel.  It always finds a format; when the
    selection is WAV or is not among the offered formats it saves the WAV
    encoding of the buffer under the extension [wav]; it reports a failure
    only if the recorder has fired an [error] event (the MIME type it hands
    to [transcodeToBlob] is one the platform accepts); and it is left waiting,
    with the download marked as in progress, only while neither [stop] nor
    [error] has been delivered. *)
Theorem handleDownload_offered (host : Host) (selectedFormat : string)
  (audioBuffer : AudioBuffer) (events : list Event) :
  channelData audioBuffer <> [] ->
  let outcome :=
    handleDownload host (getSupportedFormats host) selectedFormat
      (Some audioBuffer) events in
  outcome <> NoFormat
  /\ ((selectedFormat = "audio/wav"%string
       \/ ~ In selectedFormat (map mimeType (getSupportedFormats host))) ->
      exists blob : Blob,
        audioBufferToWav host audioBuffer = Ok blob
        /\ outcome = Saved blob "wav")
  /\ (forall message : string, outcome = Failed message -> In Error events)
  /\ (outcome = Waiting ->
      forallb (fun e => negb (closes e)) events = true).
Proof.
  intros Hne. cbv zeta. unfold handleDownload.
  destruct (offered_formatInfo host selectedFormat)
    as (f & -> & Hin & Hwav).
  pose proof (audioBufferToWav_layout host audioBuffer Hne) as Hblob.
  destruct (getSupportedFormats_In host f Hin)
    as [->|(Hmime & isTypeSupported & Hrec & Hsup)].
  - cbn [mimeType wavFormat ext String.eqb Ascii.eqb Bool.eqb].
    rewrite Hblob.
    split; [discriminate|]. split; [|split; discriminate].
    intros _. eexists. split; reflexivity.
  - apply String.eqb_neq in Hmime. rewrite Hmime.
    rewrite (transcodeToBlob_recording host audioBuffer (mimeType f)
               isTypeSupported events Hrec Hsup).
    split; [|split; [|split]].
    + destruct (promise _); discriminate.
    + intros Hsel. apply Hwav in Hsel. subst f. discriminate Hmime.
    + intros message Hfail.
      destruct (promise (foldl (handle (mimeType f)) recording_start events))
        as [|blob|e] eqn:Hp; try discriminate Hfail.
      destruct (handle_rejected _ _ _ _ Hp) as [Hstart|Herr];
        [discriminate Hstart | exact Herr].
    + intros Hwait.
      apply (recording_pending_quiet (mimeType f)).
      destruct (promise (foldl (handle (mimeType f)) recording_start events));
        [reflexivity | discriminate Hwait | discriminate Hwait].
Qed.

Lemma handleDownload_offered_witness :
  exists blob : Blob,
    audioBufferToWav exampleHost stereoExample = Ok blob
    /\ handleDownload exampleHost (getSupportedFormats exampleHost)
         "audio/flac" (Some stereoExample) [Ended; Timeout; Stop]
       = Saved blob "wav".
Proof.
  assert (Hne : channelData stereoExample <> []) by discriminate.
  destruct (handleDownload_offered exampleHost "audio/flac" stereoExample
              [Ended; Timeout; Stop] Hne) as (_ & Hwav & _ & _).
  apply Hwav. right. cbn. intros [H|[H|[H|[]]]]; discriminate H.
Defined.

(** ** The speech service *)

Lemma inlineAudio_first (response : GenResponse) (data : string) :
  inlineAudio response = Some data <-> first_inline_data response data.
Proof.
  unfold inlineAudio. split.
  - destruct response as [candidates].
    destruct candidates as [[|[content] others]|];
      cbn [optional gen_candidates gen_content head]; try discriminate.
    destruct content as [[parts]|];
      cbn [optional gen_parts head]; try discriminate.
    destruct parts as [[|[blob] parts]|];
      cbn [optional gen_inlineData head]; try discriminate.
    destruct blob as [[d]|]; cbn [optional gen_data]; try discriminate.
    intros Hd. eapply first_inline; try reflexivity. exact Hd.
  - intros [candidate others content part parts blob Hcs Hc Hps Hp Hd].
    rewrite Hcs. cbn [optional head]. rewrite Hc. cbn [optional].
    rewrite Hps. cbn [optional head]. rewrite Hp. cbn [optional].
    exact Hd.
Qed.

(** X10: how [generateSpeech] ends, for every outcome of the request.  An
    exception of the request is thrown on with its message.  A response
    whose first candidate's first part carries inline data that is a
    non-empty string makes it return that string, so it never returns the
    empty string.  Every other response (no candidates or no first
    candidate, no content, no parts or no first part, no inline data, no
    data or empty data, also when the audio sits in a later part or
    candidate) ends in the exception
    "No audio data received from Gemini API.". *)
Theorem generateSpeech_payload (ai : string -> VoiceName -> ApiOutcome)
  (text : string) (voice : VoiceName) (outcome : Speech) :
  generateSpeech ai text voice = outcome
  <-> (exists message : string,
         ai text voice = ApiThrows message /\ outcome = Thrown message)
      \/ (exists response : GenResponse,
            ai text voice = ApiReturns response
            /\ ((exists data : string,
                    first_inline_data response data
                    /\ data <> EmptyString
                    /\ outcome = Audio data)
                \/ ((forall data : string,
                       first_inline_data response data -> data = EmptyString)
                    /\ outcome
                       = Thrown "No audio data received from Gemini API."))).
Proof.
  unfold generateSpeech.
  destruct (ai text voice) as [message|response].
  - split.
    + intros <-. left. exists message. split; reflexivity.
    + intros [(m & Hm & ->)|(response & Hr & _)]; congruence.
  - cbv zeta.
    destruct (inlineAudio response) as [[|c rest]|] eqn:Hdata.
    + assert (Hall : forall data : string,
                 first_inline_data response data -> data = EmptyString).
      { intros data Hfirst. apply inlineAudio_first in Hfirst. congruence. }
      split.
      * intros <-. right. exists response. split; [reflexivity|].
        right. split; [exact Hall | reflexivity].
      * intros [(m & Hm & _)|(r & Hr & Hcase)]; [discriminate Hm|].
        injection Hr as <-.
        destruct Hcase as [(data & Hfirst & Hne & _)|(_ & ->)];
          [|reflexivity].
        exfalso. apply Hne, Hall, Hfirst.
    + apply inlineAudio_first in Hdata.
      split.
      * intros <-. right. exists response. split; [reflexivity|].
        left. exists (String c rest).
        split; [exact Hdata|]. split; [discriminate | reflexivity].
      * intros [(m & Hm & _)|(r & Hr & Hcase)]; [discriminate Hm|].
        injection Hr as <-.
        destruct Hcase as [(data & Hfirst & _ & ->)|(Hall & _)].
        -- apply inlineAudio_first in Hfirst, Hdata. congruence.
        -- discriminate (Hall _ Hdata).
    + assert (Hall : forall data : string,
                 first_inline_data response data -> data = EmptyString).
      { intros data Hfirst. apply inlineAudio_first in Hfirst. congruence. }
      split.
      * intros <-. right. exists response. split; [reflexivity|].
        right. split; [exact Hall | reflexivity].
      * intros [(m & Hm & _)|(r & Hr & Hcase)]; [discriminate Hm|].
        injection Hr as <-.
        destruct Hcase as [(data & Hfirst & Hne & _)|(_ & ->)];
          [|reflexivity].
        exfalso. apply Hne, Hall, Hfirst.
Qed.

Lemma generateSpeech_payload_witness :
  generateSpeech
    (fun _ _ => ApiReturns (responseWith (Some "AID/fw=="%string) [] []))
    "hello" Kore
  = Audio "AID/fw=="
  /\ generateSpeech (fun _ _ => ApiThrows "quota exceeded") "hello" Puck
     = Thrown "quota exceeded"
  /\ generateSpeech (fun _ _ => ApiReturns (mkGenResponse None))
       "hello" Charon
     = Thrown "No audio data received from Gemini API."
  /\ generateSpeech
       (fun _ _ => ApiReturns (responseWith (Some EmptyString) [] []))
       "hello" Fenrir
     = Thrown "No audio data received from Gemini API."
  /\ generateSpeech
       (fun _ _ =>
          ApiReturns
            (responseWith None
               [mkGenPart (Some (mkGenBlob (Some "AID/fw=="%string)))] []))
       "hello" Zephyr
     = Thrown "No audio data received from Gemini API.".
Proof.
  split; [|split; [|split; [|split]]].
  - apply (proj2 (generateSpeech_payload _ "hello"%string Kore _)).
    right. eexists. split; [reflexivity|]. left. eexists.
    split; [eapply first_inline; reflexivity|].
    split; [discriminate | reflexivity].
  - apply (proj2 (generateSpeech_payload _ "hello"%string Puck _)).
    left. eexists. split; reflexivity.
  - apply (proj2 (generateSpeech_payload _ "hello"%string Charon _)).
    right. eexists. split; [reflexivity|]. right.
    split; [|reflexivity].
    intros data [candidate others content part parts blob Hcs _ _ _ _].
    discriminate Hcs.
  - apply (proj2 (generateSpeech_payload _ "hello"%string Fenrir _)).
    right. eexists. split; [reflexivity|]. right.
    split; [|reflexivity].
    intros data [candidate others content part parts blob Hcs Hc Hps Hp Hd].
    injection Hcs as <- _. injection Hc as <-. injection Hps as <- _.
    injection Hp as <-. injection Hd as <-. reflexivity.
  - apply (proj2 (generateSpeech_payload _ "hello"%string Zephyr _)).
    right. eexists. split; [reflexivity|]. right.
    split; [|reflexivity].
    intros data [candidate others content part parts blob Hcs Hc Hps Hp Hd].
    injection Hcs as <- _. injection Hc as <-. injection Hps as <- _.
    injection Hp as <-. discriminate Hd.
Defined.

(** ** The visualizer *)

Lemma draw_bars_lookup (height : nat) (w : Q) (dataArray : list byte) :
  forall (x0 : Q) (i : nat) (d : byte),
    dataArray !! i = Some d ->
    exists x : Q,
      draw_bars dataArray height (Fin w) (Fin x0) !! i
      = Some (FillRect (barGradient height) (Fin x)
                (Fin (inject_Z (Z.of_nat height) - (byte.unsigned d # 2)))
                (Fin w) (Fin (byte.unsigned d # 2)))
      /\ (x == x0 + inject_Z (Z.of_nat i) * (w + 1))%Q.
Proof.
  induction dataArray as [|d0 rest IH]; intros x0 i d Hd; [discriminate|].
  destruct i as [|i].
  - injection Hd as ->. exists x0. split; [reflexivity|].
    change (inject_Z (Z.of_nat 0)) with 0%Q. ring.
  - cbn [draw_bars lookup list_lookup num_add] in *.
    destruct (IH (x0 + (w + 1))%Q i d Hd) as (x & Hx & Heq).
    exists x. split; [exact Hx|].
    rewrite Heq, Nat2Z.inj_succ. unfold Z.succ.
    rewrite inject_Z_plus. change (inject_Z 1) with 1%Q. ring.
Qed.

Lemma length_draw_bars (height : nat) (barWidth : number)
  (dataArray : list byte) :
  forall x : number,
    length (draw_bars dataArray height barWidth x) = length dataArray.
Proof.
  induction dataArray as [|d rest IH]; intros x; [reflexivity|].
  cbn [draw_bars length]. rewrite IH. reflexivity.
Qed.

(** X11: one frame of the visualizer while playing, for [n >= 1] bins on a
    canvas [width] by [height]: after the request for the next frame and the
    background, one bar per bin is drawn, in order.  Bar [i] is [5/2 * width
    / n] wide, starts at x = i * (barWidth + 1), is half the bin's magnitude
    high (at most 127.5) and stands on the bottom edge.  So a bar whose index
    is at least two fifths of [n] starts at or beyond the right edge of the
    canvas, and a bar for a magnitude above twice the canvas height starts
    above its top edge. *)
Theorem draw_bar_geometry (width height : nat) (frequencyData : list byte)
  (i : nat) (d : byte) :
  frequencyData !! i = Some d ->
  let n := length frequencyData in
  let barWidth := ((Z.of_nat width # Pos.of_nat n) * (5 # 2))%Q in
  length (draw true width height frequencyData) = (2 + n)%nat
  /\ exists x y h : Q,
       draw true width height frequencyData !! (2 + i)%nat
       = Some (FillRect (barGradient height) (Fin x) (Fin y) (Fin barWidth)
                 (Fin h))
       /\ (x == inject_Z (Z.of_nat i) * (barWidth + 1))%Q
       /\ (h == byte.unsigned d # 2)%Q
       /\ (0 <= h <= 255 # 2)%Q
       /\ (y + h == inject_Z (Z.of_nat height))%Q
       /\ ((2 * n <= 5 * i)%nat -> (inject_Z (Z.of_nat width) <= x)%Q)
       /\ ((2 * height < Z.to_nat (byte.unsigned d))%nat -> (y < 0)%Q).
Proof.
  intros Hd n barWidth.
  assert (Hn : (1 <= n)%nat).
  { apply lookup_lt_Some in Hd. unfold n. lia. }
  assert (Hjs : js_div width n = Fin (Z.of_nat width # Pos.of_nat n))
    by (unfold js_div; destruct n; [lia | reflexivity]).
  assert (Hpos : Z.pos (Pos.of_nat n) = Z.of_nat n)
    by (destruct n; [lia | apply Zpos_of_nat_S]).
  unfold draw. cbn [negb]. fold n. rewrite Hjs.
  cbn [num_mul]. fold barWidth.
  split; [cbn [length]; rewrite length_draw_bars; reflexivity|].
  destruct (draw_bars_lookup height barWidth frequencyData 0 i d Hd)
    as (x & Hx & Heq).
  pose proof (byte.unsigned_range d) as Hrange.
  change (2 ^ 8)%Z with 256%Z in Hrange.
  exists x, (inject_Z (Z.of_nat height) - (byte.unsigned d # 2))%Q,
    (byte.unsigned d # 2)%Q.
  split; [exact Hx|].
  assert (Hxi : (x == inject_Z (Z.of_nat i) * (barWidth + 1))%Q)
    by (rewrite Heq; ring).
  split; [exact Hxi|]. split; [reflexivity|].
  split; [unfold Qle; cbn [Qnum Qden]; lia|].
  split; [ring|]. split.
  - intros Hfar. rewrite Hxi.
    assert (Hw : (inject_Z (Z.of_nat width)
                  <= inject_Z (Z.of_nat i) * barWidth)%Q).
    { unfold barWidth, Qle, inject_Z, Qmult. cbn [Qnum Qden].
      rewrite !Pos2Z.inj_mul, Hpos.
      assert (Z.of_nat n * 2 <= 5 * Z.of_nat i)%Z by lia. nia. }
    assert (Hi : (0 <= inject_Z (Z.of_nat i))%Q)
      by (unfold Qle, inject_Z; cbn [Qnum Qden]; lia).
    apply (Qle_trans _ _ _ Hw).
    assert (Hsum : (inject_Z (Z.of_nat i) * (barWidth + 1)
                    == inject_Z (Z.of_nat i) * barWidth
                       + inject_Z (Z.of_nat i))%Q) by ring.
    rewrite Hsum.
    rewrite <- (Qplus_0_r (inject_Z (Z.of_nat i) * barWidth)) at 1.
    apply Qplus_le_compat; [apply Qle_refl | exact Hi].
  - intros Htall. unfold Qlt, Qminus, Qplus, Qopp, inject_Z.
    cbn [Qnum Qden]. lia.
Qed.

Lemma draw_bar_geometry_witness :
  exists x y h : Q,
    draw true 600 100
      (replicate 4 Byte.x00 ++ [Byte.xff] ++ replicate 3 Byte.x10) !! 6%nat
    = Some (FillRect (barGradient 100) (Fin x) (Fin y)
              (Fin ((600 # 8) * (5 # 2))) (Fin h))
    /\ (600 <= x)%Q /\ (y < 0)%Q.
Proof.
  destruct (draw_bar_geometry 600 100
              (replicate 4 Byte.x00 ++ [Byte.xff] ++ replicate 3 Byte.x10)
              4 Byte.xff eq_refl)
    as (_ & x & y & h & Hop & _ & _ & _ & _ & Hfar & Htall).
  exists x, y, h. split; [exact Hop|]. split.
  - apply Hfar. cbn. lia.
  - apply Htall. cbn. lia.
Defined.

(** ** Clipping and order of the sample conversion *)

Lemma Qtruncate_floor (q : Q) : (0 <= q)%Q -> Qtruncate q = Qfloor q.
Proof.
  destruct q as [n d]. unfold Qle, Qtruncate, Qfloor. cbn [Qnum Qden].
  intros H. apply Z.quot_div_nonneg; lia.
Qed.

Lemma Qtruncate_ceiling (q : Q) : (q <= 0)%Q -> Qtruncate q = Qceiling q.
Proof.
  destruct q as [n d]. unfold Qle, Qtruncate, Qceiling, Qfloor, Qopp.
  cbn [Qnum Qden]. intros H.
  rewrite <- (Z.opp_involutive n) at 1.
  rewrite Z.quot_opp_l by lia. f_equal.
  apply Z.quot_div_nonneg; lia.
Qed.

Lemma Qtruncate_mono (a b : Q) :
  (a <= b)%Q -> (Qtruncate a <= Qtruncate b)%Z.
Proof.
  intros Hab.
  destruct (Qlt_le_dec a 0) as [Ha|Ha]; destruct (Qlt_le_dec b 0) as [Hb|Hb].
  - rewrite !Qtruncate_ceiling by (apply Qlt_le_weak; assumption).
    apply Qceiling_resp_le. exact Hab.
  - rewrite (Qtruncate_ceiling a) by (apply Qlt_le_weak; exact Ha).
    apply Z.le_trans with 0%Z.
    + change 0%Z with (Qceiling 0).
      apply Qceiling_resp_le, Qlt_le_weak, Ha.
    + apply Qtruncate_nonneg. exact Hb.
  - exfalso. apply (Qlt_irrefl 0).
    apply Qle_lt_trans with b; [|exact Hb].
    apply Qle_trans with a; assumption.
  - rewrite !Qtruncate_floor by assumption.
    apply Qfloor_resp_le. exact Hab.
Qed.

Lemma pcm16_spec_mono (q1 q2 : Q) :
  (q1 <= q2)%Q -> (pcm16_spec q1 <= pcm16_spec q2)%Z.
Proof.
  intros Hq. unfold pcm16_spec.
  assert (Hc : (Qclamp q1 <= Qclamp q2)%Q).
  { unfold Qclamp. apply Q.max_le_compat_l, Q.min_le_compat_l. exact Hq. }
  destruct (Qle_bool 0 (Qclamp q1)) eqn:H1;
    destruct (Qle_bool 0 (Qclamp q2)) eqn:H2.
  - apply Qtruncate_mono. apply Qmult_le_compat_r; [exact Hc | discriminate].
  - apply Qle_bool_iff in H1.
    assert (Qle_bool 0 (Qclamp q2) = true)
      by (apply Qle_bool_iff; apply Qle_trans with (Qclamp q1); assumption).
    congruence.
  - apply Qle_bool_iff in H2.
    assert (Hneg : (Qclamp q1 <= 0)%Q).
    { destruct (Qlt_le_dec (Qclamp q1) 0) as [Hlt|Hge];
        [apply Qlt_le_weak; exact Hlt|].
      apply Qle_bool_iff in Hge. congruence. }
    apply Z.le_trans with 0%Z.
    + change 0%Z with (Qtruncate 0). apply Qtruncate_mono.
      setoid_replace 0%Q with (0 * 32768)%Q using relation Qeq by ring.
      apply Qmult_le_compat_r; [exact Hneg | discriminate].
    + apply Qtruncate_nonneg.
      apply Qmult_le_0_compat; [exact H2 | discriminate].
  - apply Qtruncate_mono. apply Qmult_le_compat_r; [exact Hc | discriminate].
Qed.

Lemma pcm16_spec_high (q : Q) : (1 <= q)%Q -> pcm16_spec q = 32767%Z.
Proof.
  intros Hq. unfold pcm16_spec, Qclamp.
  assert (Hmin : Qmin 1 q = 1%Q).
  { unfold Qmin, GenericMinMax.gmin.
    destruct (1 ?= q)%Q eqn:Hcmp; try reflexivity.
    apply Qgt_alt in Hcmp. exfalso.
    apply (Qlt_irrefl q). apply Qlt_le_trans with 1%Q; assumption. }
  rewrite Hmin. reflexivity.
Qed.

Lemma pcm16_spec_low (q : Q) : (q <= -1)%Q -> pcm16_spec q = (-32768)%Z.
Proof.
  intros Hq. unfold pcm16_spec, Qclamp.
  assert (Hmin : Qmin 1 q = q).
  { unfold Qmin, GenericMinMax.gmin.
    destruct (1 ?= q)%Q eqn:Hcmp; try reflexivity; exfalso.
    - apply Qeq_alt in Hcmp. rewrite <- Hcmp in Hq. exact (Hq eq_refl).
    - apply Qlt_alt in Hcmp. apply (Qlt_irrefl 1).
      apply Qlt_le_trans with q; [exact Hcmp|].
      apply Qle_trans with (-1)%Q; [exact Hq | discriminate]. }
  assert (Hmax : Qmax (-1) q = (-1)%Q).
  { unfold Qmax, GenericMinMax.gmax.
    destruct (-1 ?= q)%Q eqn:Hcmp; try reflexivity.
    apply Qlt_alt in Hcmp. exfalso.
    apply (Qlt_irrefl q). apply Qle_lt_trans with (-1)%Q; assumption. }
  rewrite Hmin, Hmax. reflexivity.
Qed.

(** X12: the sample conversion clips and keeps order.  In the file
    [audioBufferToWav] writes for a mono buffer, a sample of 1 or more is
    stored as 32767 and a sample of -1 or less as -32768 (values outside
    [-1, 1] never wrap around), and of two samples the larger one never gets
    the smaller stored value. *)
Theorem audioBufferToWav_clips (host : Host) (rate : Z) (samples : list Q) :
  exists blob : Blob,
    audioBufferToWav host (mkAudioBuffer rate [map Fin samples]) = Ok blob
    /\ length (pcm_payload (blob_data blob)) = length samples
    /\ forall (i : nat) (q : Q),
         samples !! i = Some q ->
         exists k : Z,
           pcm_payload (blob_data blob) !! i = Some k
           /\ (-32768 <= k <= 32767)%Z
           /\ ((1 <= q)%Q -> k = 32767%Z)
           /\ ((q <= -1)%Q -> k = (-32768)%Z)
           /\ forall (j : nat) (q' : Q) (k' : Z),
                samples !! j = Some q' ->
                pcm_payload (blob_data blob) !! j = Some k' ->
                (q <= q')%Q -> (k <= k')%Z.
Proof.
  destruct (audioBufferToWav_payload host
              (mkAudioBuffer rate [map Fin samples]))
    as (blob & Hblob & Hpay); [discriminate|].
  exists blob. split; [exact Hblob|].
  cbn [encoded_samples channelData] in Hpay.
  rewrite map_map in Hpay.
  assert (Hspec : pcm_payload (blob_data blob) = pcm16_spec <$> samples).
  { rewrite Hpay. apply map_ext. intros q. apply pcm16_Fin. }
  rewrite Hspec. split; [apply length_fmap|].
  intros i q Hq. exists (pcm16_spec q).
  split; [rewrite list_lookup_fmap, Hq; reflexivity|].
  split; [rewrite <- pcm16_Fin; apply pcm16_range|].
  split; [apply pcm16_spec_high|]. split; [apply pcm16_spec_low|].
  intros j q' k' Hq' Hk' Hle.
  rewrite list_lookup_fmap, Hq' in Hk'. injection Hk' as <-.
  apply pcm16_spec_mono. exact Hle.
Qed.

Lemma audioBufferToWav_clips_witness :
  exists blob : Blob,
    audioBufferToWav exampleHost (mkAudioBuffer 24000 [map Fin [3; -2]%Q])
    = Ok blob
    /\ pcm_payload (blob_data blob) = [32767; -32768]%Z.
Proof.
  destruct (audioBufferToWav_clips exampleHost 24000 [3; -2]%Q)
    as (blob & Hblob & Hlen & Hs).
  exists blob. split; [exact Hblob|].
  destruct (Hs 0%nat 3%Q eq_refl) as (k0 & Hk0 & _ & Hhigh & _).
  destruct (Hs 1%nat (-2)%Q eq_refl) as (k1 & Hk1 & _ & _ & Hlow & _).
  rewrite (Hhigh ltac:(discriminate)) in Hk0.
  rewrite (Hlow ltac:(discriminate)) in Hk1.
  destruct (pcm_payload (blob_data blob)) as [|a [|b [|c rest]]];
    try discriminate Hlen.
  cbn in Hk0, Hk1. congruence.
Defined.

(** ** Splitting and joining channels *)

Lemma alternate_length {A} (L R : list A) :
  length L = length R -> length (alternate L R) = (2 * length L)%nat.
Proof.
  revert R. induction L as [|l L IH]; intros [|r R] Hlen; try discriminate;
    [reflexivity|].
  cbn [alternate length] in *. rewrite IH by lia. lia.
Qed.

(** X13: for two-channel data of whole frames, in an array at an even
    offset of its buffer, [interleave] undoes the channel split of
    [decodeAudioData]: interleaving the two decoded channels gives the samples
    in the order of the byte stream, each the signed 16-bit value of its two
    bytes divided by 32768. *)
Theorem decode_interleave_stream (host : Host) (data : Uint8Array) (rate : Z)
  (frames : nat) :
  Nat.even (byteOffset data) = true ->
  byteLength data = (4 * frames)%nat ->
  bufferAllowed host 2 frames rate = true ->
  exists inputL inputR : list number,
    decodeAudioData host data rate 2 = Ok (mkAudioBuffer rate [inputL; inputR])
    /\ length inputL = frames /\ length inputR = frames
    /\ interleave inputL inputR
       = map (fun k => Fin (k # 32768)) (int16_elements (ua_bytes data)).
Proof.
  intros Heven Hlen Hallowed. unfold byteLength in Hlen.
  assert (Hints : length (int16_elements (ua_bytes data)) = (2 * frames)%nat).
  { rewrite int16_elements_length, Hlen.
    replace (4 * frames)%nat with (2 * frames * 2)%nat by lia.
    apply Nat.div_mul. lia. }
  assert (Hframes : (byteLength data / 2 / 2)%nat = frames).
  { unfold byteLength.
    rewrite <- int16_elements_length, Hints, Nat.mul_comm.
    apply Nat.div_mul. lia. }
  pose proof (decodeAudioData_closed host data rate 2 ltac:(lia) Heven)
    as Hdec.
  cbv zeta in Hdec. rewrite Hframes, Hallowed in Hdec. cbn [seq map] in Hdec.
  eexists. eexists. split; [exact Hdec|].
  assert (HL : forall c : nat,
             length (decoded_channel (int16_elements (ua_bytes data)) 2
                       frames c)
             = frames)
    by (intros c; unfold decoded_channel; rewrite length_map;
        apply length_seq).
  split; [apply HL|]. split; [apply HL|].
  rewrite interleave_alternate by (rewrite !HL; reflexivity).
  apply list_eq. intros j.
  destruct (Nat.lt_ge_cases j (2 * frames)) as [Hj|Hj].
  - pose proof (Nat.div_mod_eq j 2) as Hdm.
    pose proof (Nat.mod_upper_bound j 2 ltac:(lia)) as Hm.
    assert (Hi : (j / 2 < frames)%nat) by lia.
    destruct (alternate_lookup
                (decoded_channel (int16_elements (ua_bytes data)) 2 frames 0)
                (decoded_channel (int16_elements (ua_bytes data)) 2 frames 1)
                (j / 2))
      as [He Ho]; [rewrite !HL; reflexivity|].
    destruct (lookup_lt_is_Some_2 (int16_elements (ua_bytes data)) j) as [k Hk];
      [rewrite Hints; exact Hj|].
    change (map (fun k => Fin (k # 32768)) (int16_elements (ua_bytes data)))
      with ((fun k => Fin (k # 32768)) <$> int16_elements (ua_bytes data)).
    rewrite list_lookup_fmap, Hk. cbn [fmap option_fmap option_map].
    destruct (j mod 2)%nat as [|[|m]] eqn:Hmod; [| |lia].
    + replace j with (j / 2 * 2)%nat at 1 by lia.
      rewrite He. unfold decoded_channel.
      rewrite lookup_map_seq by exact Hi.
      replace (j / 2 * 2 + 0)%nat with j by lia. rewrite Hk. reflexivity.
    + replace j with (j / 2 * 2 + 1)%nat at 1 by lia.
      rewrite Ho. unfold decoded_channel.
      rewrite lookup_map_seq by exact Hi.
      replace (j / 2 * 2 + 1)%nat with j by lia. rewrite Hk. reflexivity.
  - rewrite !lookup_ge_None_2; [reflexivity | |].
    + rewrite length_map, Hints. exact Hj.
    + rewrite alternate_length by (rewrite !HL; reflexivity).
      rewrite HL. exact Hj.
Qed.

Lemma decode_interleave_stream_witness :
  exists inputL inputR : list number,
    decodeAudioData exampleHost
      (mkUint8Array [Byte.x01; Byte.x02] extremesExample [Byte.x03]) 24000 2
    = Ok (mkAudioBuffer 24000 [inputL; inputR])
    /\ interleave inputL inputR
       = [Fin (-32768 # 32768); Fin (32767 # 32768)].
Proof.
  destruct (decode_interleave_stream exampleHost
              (mkUint8Array [Byte.x01; Byte.x02] extremesExample [Byte.x03])
              24000 1 eq_refl eq_refl eq_refl)
    as (inputL & inputR & Hdec & _ & _ & Hjoin).
  exists inputL, inputR. split; [exact Hdec | exact Hjoin].
Defined.
